(** * curious: the event manager and the curio websocket wrapper

    A shallow embedding of [curious/core/event/manager.py] (class
    [EventManager]) and of [curious/core/_ws_wrapper/curio_wrapper.py]
    (class [CurioWebsocketWrapper]), with the properties of the dispatcher,
    of [wait_for] and of the outbound queue stated over it.

    Conventions.  A coroutine that never suspends on anything but a spawned
    task is a state transformer [state -> state * completion _].  Spawning
    pushes a [task] on the task manager's queue; tasks are run later, one at
    a time, by [run_task].  [wait_for] suspends on [Promise.wait]: what the
    rest of the program does meanwhile is an argument of [wait_for].  User
    supplied callables (handlers, hooks, predicates) are opaque: their
    completion is given by the section variables [handler_body] and
    [predicate_body]; every invocation is recorded in the [calls] trace. *)

From stdpp Require Import gmap strings list fin_maps.
From Stdlib Require Import ZArith.

Open Scope string_scope.
Open Scope list_scope.
Open Scope nat_scope.

(** ** Python values, callables, exceptions *)

(** The values that flow through the manager: event arguments, predicate
    results, and the two keyword arguments [fire_event] looks at
    ([ctx], an [EventContext]; [gateway], of which only
    [gateway.session.shard_id] is read). *)
#[warnings="-register-all"]
Inductive value : Type :=
| VNone
| VBool (b : bool)
| VInt (z : Z)
| VStr (s : string)
| VTuple (items : list value)
| VContext (shard_id : Z) (event_name : string)
| VGateway (shard_id : Z).

(** Python truthiness ([bool(v)]). *)
Definition truthy (v : value) : bool :=
  match v with
  | VNone => false
  | VBool b => b
  | VInt z => negb (z =? 0)%Z
  | VStr s => negb (String.eqb s "")
  | VTuple items => match items with [] => false | _ => true end
  | VContext _ _ => true
  | VGateway _ => true
  end.

(** [v is True]: identity with the singleton [True]. *)
Definition is_True (v : value) : bool :=
  match v with
  | VBool true => true
  | _ => false
  end.

(** Callables are compared by identity.  [UserFn id] is a function supplied
    by the user; [WaitListener cell predicate] is the closure [listener]
    that [wait_for] builds: it captures the promise [p] (the cell) and the
    predicate (the identity of a user predicate, or [None]). *)
Inductive callable : Type :=
| UserFn (id : nat)
| WaitListener (cell : nat) (predicate : option nat).

#[global] Instance callable_eq_dec : EqDecision callable.
Proof. solve_decision. Defined.

#[global] Instance callable_countable : Countable callable.
Proof.
  refine (inj_countable'
            (fun f => match f with
                      | UserFn id => inl id
                      | WaitListener cell predicate => inr (cell, predicate)
                      end)
            (fun x => match x with
                      | inl id => UserFn id
                      | inr (cell, predicate) => WaitListener cell predicate
                      end) _).
  intros [id | cell predicate]; reflexivity.
Defined.

(** What a [KeyError] carries: the missing dict key or set element. *)
Inductive key_repr : Type :=
| KStr (s : string)
| KCallable (f : callable).

#[global] Instance key_repr_eq_dec : EqDecision key_repr.
Proof. solve_decision. Defined.

(** Exceptions (all of them instances of [Exception]). *)
Inductive exn : Type :=
| ListenerExit
| KeyError (key : key_repr)
| TypeError
| AttributeError
| Fault (n : nat).

#[global] Instance exn_eq_dec : EqDecision exn.
Proof. solve_decision. Defined.

(** How a call ends. *)
Inductive completion (A : Type) : Type :=
| Returned (a : A)
| Raised (e : exn).
Arguments Returned {A} a.
Arguments Raised {A} e.

(** The [outcome] library: [outcome.Value(v)] and [outcome.Error(e)]. *)
Inductive outcome : Type :=
| Value (v : value)
| Error (e : exn).

(** [Outcome.unwrap]. *)
Definition unwrap (o : outcome) : completion value :=
  match o with
  | Value v => Returned v
  | Error e => Raised e
  end.

(** [len(v)]: tuples and strings have a length, the other values raise
    [TypeError]. *)
Definition py_len (v : value) : completion nat :=
  match v with
  | VTuple items => Returned (length items)
  | VStr s => Returned (String.length s)
  | _ => Raised TypeError
  end.

(** [v[0]]. *)
Definition py_item0 (v : value) : completion value :=
  match v with
  | VTuple (x :: _) => Returned x
  | VStr (String c _) => Returned (VStr (String c EmptyString))
  | _ => Raised TypeError
  end.

(** ** MultiDict *)

(** A [MultiDict] keeps its entries in insertion order and allows several
    entries per key. *)
Abbreviation MultiDict := (list (string * callable)).

(** [d.add(key, item)]. *)
Definition md_add (key : string) (item : callable) (d : MultiDict) : MultiDict :=
  d ++ [(key, item)].

(** [d.getall(key, [])]. *)
Fixpoint getall (key : string) (d : MultiDict) : list callable :=
  match d with
  | [] => []
  | (k, v) :: d' =>
      if decide (k = key) then v :: getall key d' else getall key d'
  end.

(** Modelled from the spec: [remove_from_multidict] of [curious.util] is not
    among the sources.  The spec has a removal deregister "that specific
    listener" entry and has the removal of an entry that is not present be a
    silent no-op; entries of other keys and other handlers stay.  With
    several equal entries under one key, one entry (the oldest) goes. *)
Fixpoint remove_from_multidict (d : MultiDict) (key : string) (item : callable)
  : MultiDict :=
  match d with
  | [] => []
  | (k, v) :: d' =>
      if decide (k = key ∧ v = item) then d'
      else (k, v) :: remove_from_multidict d' key item
  end.

(** Number of registrations of [item] under [key]. *)
Definition registrations (key : string) (item : callable) (d : MultiDict) : nat :=
  length (filter (fun f => f = item) (getall key d)).

(** ** The state *)

Abbreviation kwargs_t := (gmap string value).

(** A task handed to the task manager by [fire_event]. *)
Inductive task : Type :=
| HookTask (hook : callable) (args : list value) (kwargs : kwargs_t)
| SafetyTask (handler : callable) (args : list value) (kwargs : kwargs_t)
| ListenerTask (key : string) (listener : callable) (args : list value)
    (kwargs : kwargs_t).

(** Records written through [logger]. *)
Inductive log_entry : Type :=
| LogRegistered (func : callable) (ev_name : string)
| LogAddingHook (listener : callable)
| LogUnhandled (func : callable) (e : exn)
| LogUnhandledListener (func : callable) (e : exn)
| LogPredicate (e : exn).

(** The manager ([event_hooks], [event_listeners], [temporary_listeners],
    [task_manager]) together with what it acts on: the [Promise] objects
    allocated so far, the [event_context] variable as the dispatcher sees
    it, the trace of the invocations of callables, and the log. *)
Record state : Type := mkState {
  task_manager : list task;
  event_hooks : gset callable;
  event_listeners : MultiDict;
  temporary_listeners : MultiDict;
  promises : list (option outcome);
  event_context : option (Z * string);
  calls : list (callable * list value * kwargs_t);
  log : list log_entry
}.

(** [EventManager.__init__]. *)
Definition new_manager : state :=
  mkState [] ∅ [] [] [] None [] [].

(** The three registries. *)
Definition registries (st : state) : gset callable * MultiDict * MultiDict :=
  (event_hooks st, event_listeners st, temporary_listeners st).

Definition set_task_manager (x : list task) (st : state) : state :=
  mkState x (event_hooks st) (event_listeners st) (temporary_listeners st)
    (promises st) (event_context st) (calls st) (log st).

Definition set_event_hooks (x : gset callable) (st : state) : state :=
  mkState (task_manager st) x (event_listeners st) (temporary_listeners st)
    (promises st) (event_context st) (calls st) (log st).

Definition set_event_listeners (x : MultiDict) (st : state) : state :=
  mkState (task_manager st) (event_hooks st) x (temporary_listeners st)
    (promises st) (event_context st) (calls st) (log st).

Definition set_temporary_listeners (x : MultiDict) (st : state) : state :=
  mkState (task_manager st) (event_hooks st) (event_listeners st) x
    (promises st) (event_context st) (calls st) (log st).

Definition set_promises (x : list (option outcome)) (st : state) : state :=
  mkState (task_manager st) (event_hooks st) (event_listeners st)
    (temporary_listeners st) x (event_context st) (calls st) (log st).

Definition set_event_context (x : option (Z * string)) (st : state) : state :=
  mkState (task_manager st) (event_hooks st) (event_listeners st)
    (temporary_listeners st) (promises st) x (calls st) (log st).

Definition record_call (c : callable * list value * kwargs_t) (st : state) : state :=
  mkState (task_manager st) (event_hooks st) (event_listeners st)
    (temporary_listeners st) (promises st) (event_context st)
    (calls st ++ [c]) (log st).

Definition add_log (entry : log_entry) (st : state) : state :=
  mkState (task_manager st) (event_hooks st) (event_listeners st)
    (temporary_listeners st) (promises st) (event_context st) (calls st)
    (log st ++ [entry]).

(** ** Promise *)

(** Modelled from the spec: [Promise] of [curious.util] is not among the
    sources.  The spec's single-shot result cell "holds at most one of
    unset, success(value), failure(fault)"; [set] settles it and "only the
    first call has effect"; [wait] returns the settled outcome once it is
    set. *)
Definition promise_new (st : state) : nat * state :=
  (length (promises st), set_promises (promises st ++ [None]) st).

Definition promise_set (cell : nat) (o : outcome) (st : state) : state :=
  match promises st !! cell with
  | Some None => set_promises (<[cell := Some o]> (promises st)) st
  | _ => st
  end.

(** [None]: the waiter stays suspended. *)
Definition promise_wait (cell : nat) (st : state) : option outcome :=
  match promises st !! cell with
  | Some (Some o) => Some o
  | _ => None
  end.

(** * The event manager *)

Section EventManager.

(** The user's code: whether a callable passes
    [inspect.iscoroutinefunction], the [events] attribute of a callable
    ([None] when it has no such attribute), and how the body of a handler
    (or hook, or listener) and of a [wait_for] predicate completes on given
    arguments (for an asynchronous predicate: once awaited). *)
Variable iscoroutinefunction : nat -> bool.
Variable func_events : nat -> option (list string).
Variable handler_body : nat -> list value -> kwargs_t -> completion unit.
Variable predicate_body : nat -> list value -> completion value.

(** ** Adding and removing *)

(** [inspect.iscoroutinefunction(func)]; the [listener] of [wait_for] is an
    [async def]. *)
Definition is_coroutine_function (func : callable) : bool :=
  match func with
  | UserFn id => iscoroutinefunction id
  | WaitListener _ _ => true
  end.

(** [func.events]: [AttributeError] for a callable without the attribute;
    the [listener] of [wait_for] has no such attribute. *)
Definition events_of (func : callable) : completion (list string) :=
  match func with
  | UserFn id =>
      match func_events id with
      | Some evs => Returned evs
      | None => Raised AttributeError
      end
  | WaitListener _ _ => Raised AttributeError
  end.

(** The loop of [add_event]. *)
Fixpoint register_all (func : callable) (evs : list string) (st : state) : state :=
  match evs with
  | [] => st
  | ev_name :: evs' =>
      let st1 := add_log (LogRegistered func ev_name) st in
      register_all func evs'
        (set_event_listeners (md_add ev_name func (event_listeners st1)) st1)
  end.

Definition add_event (func : callable) (name : option string) (st : state)
  : state * completion unit :=
  if negb (is_coroutine_function func) then (st, Raised TypeError)
  else
    match name with
    | None =>
        match events_of func with
        | Raised e => (st, Raised e)
        | Returned evs => (register_all func evs st, Returned tt)
        end
    | Some n => (register_all func [n] st, Returned tt)
    end.

Definition remove_event (name : string) (func : callable) (st : state) : state :=
  set_event_listeners (remove_from_multidict (event_listeners st) name func) st.

Definition add_temporary_listener (name : string) (listener : callable)
    (st : state) : state :=
  set_temporary_listeners (md_add name listener (temporary_listeners st)) st.

(** As in the source, the removal is made on [event_listeners]. *)
Definition remove_listener_early (name : string) (listener : callable)
    (st : state) : state :=
  set_event_listeners (remove_from_multidict (event_listeners st) name listener) st.

Definition add_event_hook (listener : callable) (st : state) : state :=
  let st1 := add_log (LogAddingHook listener) st in
  set_event_hooks (event_hooks st1 ∪ {[listener]}) st1.

(** [set.remove] raises [KeyError] on an element that is not in the set. *)
Definition remove_event_hook (listener : callable) (st : state)
  : state * completion unit :=
  if decide (listener ∈ event_hooks st)
  then (set_event_hooks (event_hooks st ∖ {[listener]}) st, Returned tt)
  else (st, Raised (KeyError (KCallable listener))).

(** ** Invoking callables *)

(** The body of the closure [listener] of [wait_for]. *)
Definition listener (cell : nat) (predicate : option nat) (args : list value)
    (st : state) : state * completion unit :=
  match predicate with
  | None =>
      (promise_set cell (Value VNone) st, Raised ListenerExit)
  | Some p =>
      match predicate_body p args with
      | Raised ListenerExit =>
          (promise_set cell (Value (VTuple args)) st, Raised ListenerExit)
      | Raised e =>
          let st1 := add_log (LogPredicate e) st in
          (promise_set cell (Error e) st1, Raised ListenerExit)
      | Returned res =>
          if is_True res
          then (promise_set cell (Value (VTuple args)) st, Raised ListenerExit)
          else (st, Returned tt)
      end
  end.

(** [await func(...)] with the positional and keyword arguments.  [listener] is declared with [*args]
    only: a keyword argument makes the call itself raise [TypeError]. *)
Definition invoke (func : callable) (args : list value) (kwargs : kwargs_t)
    (st : state) : state * completion unit :=
  let st1 := record_call (func, args, kwargs) st in
  match func with
  | UserFn id => (st1, handler_body id args kwargs)
  | WaitListener cell predicate =>
      if decide (kwargs = ∅) then listener cell predicate args st1
      else (st1, Raised TypeError)
  end.

(** ** Wrappers *)

(** [fire_event] hands [_safety_wrapper] the partial application of the
    handler to the arguments of the firing, under the name of the handler;
    here the wrapper takes the handler and the arguments. *)
Definition _safety_wrapper (func : callable) (args : list value)
    (kwargs : kwargs_t) (st : state) : state * completion unit :=
  let '(st1, r) := invoke func args kwargs st in
  match r with
  | Returned _ => (st1, Returned tt)
  | Raised e => (add_log (LogUnhandled func e) st1, Returned tt)
  end.

(** The body of [_listener_wrapper] for a listener that is a function: the
    [func.__name__] that the log of a fault reads is there.  The call that
    binds [key] and [func], and the listeners without a name, are in
    [General._listener_wrapper]. *)
Definition _listener_wrapper (key : string) (func : callable)
    (args : list value) (kwargs : kwargs_t) (st : state)
  : state * completion unit :=
  let '(st1, r) := invoke func args kwargs st in
  match r with
  | Returned _ => (st1, Returned tt)
  | Raised ListenerExit =>
      (set_temporary_listeners
         (remove_from_multidict (temporary_listeners st1) key func) st1,
       Returned tt)
  | Raised e =>
      let st2 := add_log (LogUnhandledListener func e) st1 in
      (set_temporary_listeners
         (remove_from_multidict (temporary_listeners st2) key func) st2,
       Returned tt)
  end.

(** ** Tasks *)

(** [spawn] once [task_manager] has been set: the task manager takes the
    task.  A new manager has none yet: see [General.spawn]. *)
Definition spawn (t : task) (st : state) : state :=
  set_task_manager (task_manager st ++ [t]) st.

Definition spawn_each (ts : list task) (st : state) : state :=
  foldl (fun s t => spawn t s) st ts.

(** Running one spawned task to its end.  A [Raised] completion is a fault
    that leaves the task (and reaches the task group). *)
Definition run_task (t : task) (st : state) : state * completion unit :=
  match t with
  | HookTask hook args kwargs => invoke hook args kwargs st
  | SafetyTask handler args kwargs => _safety_wrapper handler args kwargs st
  | ListenerTask key l args kwargs => _listener_wrapper key l args kwargs st
  end.

(** Running tasks one after the other, in the order given.  What the task
    group does when a fault leaves a task is the business of the runtime:
    here the completion is recorded and the run goes on. *)
Fixpoint run_tasks (ts : list task) (st : state)
  : state * list (completion unit) :=
  match ts with
  | [] => (st, [])
  | t :: ts' =>
      let '(st1, r) := run_task t st in
      let '(st2, rs) := run_tasks ts' st1 in
      (st2, r :: rs)
  end.

(** Running everything the task manager holds, in spawn order. *)
Definition run_pending (st : state) : state * list (completion unit) :=
  run_tasks (task_manager st) (set_task_manager [] st).

(** ** fire_event *)

(** The first lines of [fire_event]: the context of this firing and the
    keyword arguments left for the handlers.  [gateway.session.shard_id]
    and [ctx.event_name = event_name] need a gateway and a context. *)
Definition resolve_context (event_name : string) (kwargs : kwargs_t)
  : completion ((Z * string) * kwargs_t) :=
  match kwargs !! "ctx" with
  | None =>
      match kwargs !! "gateway" with
      | None => Raised (KeyError (KStr "gateway"))
      | Some (VGateway shard_id) =>
          Returned ((shard_id, event_name), delete "gateway" kwargs)
      | Some _ => Raised AttributeError
      end
  | Some (VContext shard_id _) =>
      Returned ((shard_id, event_name), delete "ctx" kwargs)
  | Some _ => Raised AttributeError
  end.

Definition hook_tasks (args : list value) (kwargs : kwargs_t) (st : state)
  : list task :=
  map (fun hook => HookTask hook args kwargs) (elements (event_hooks st)).

(** The wrappers of the permanent handlers, when every handler under the
    name is a function: the [handler.__name__] that [fire_event] copies to
    the partial application is there.  [General.spawn_handlers] is the loop
    for any handlers. *)
Definition handler_tasks (event_name : string) (args : list value)
    (kwargs : kwargs_t) (st : state) : list task :=
  map (fun handler => SafetyTask handler args kwargs)
    (getall event_name (event_listeners st)).

Definition listener_tasks (event_name : string) (args : list value)
    (kwargs : kwargs_t) (st : state) : list task :=
  map (fun l => ListenerTask event_name l args kwargs)
    (getall event_name (temporary_listeners st)).

(** The body of [fire_event] in a manager in use: the task manager is set
    and the handlers under the name are functions, so that the three loops
    run to their end.  [General.fire_event] is the firing without these
    assumptions, and agrees with this one under them
    ([fire_event_general]). *)
Definition fire_event (event_name : string) (args : list value)
    (kwargs : kwargs_t) (st : state) : state * completion unit :=
  match resolve_context event_name kwargs with
  | Raised e => (st, Raised e)
  | Returned (ctx, kwargs') =>
      let st1 := set_event_context (Some ctx) st in
      let st2 := spawn_each (hook_tasks args kwargs' st1) st1 in
      let st3 := spawn_each (handler_tasks event_name args kwargs' st2) st2 in
      let st4 := spawn_each (listener_tasks event_name args kwargs' st3) st3 in
      (st4, Returned tt)
  end.

(** A firing followed by the run of every pending task. *)
Definition dispatch (event_name : string) (args : list value)
    (kwargs : kwargs_t) (st : state) : state :=
  let '(st1, r) := fire_event event_name args kwargs st in
  match r with
  | Raised _ => st1
  | Returned _ => (run_pending st1).1
  end.

(** ** wait_for *)

(** [wait_for] up to its suspension: the promise, the listener, the
    registration. *)
Definition wait_for_register (event_name : string) (predicate : option nat)
    (st : state) : nat * callable * state :=
  let '(p, st1) := promise_new st in
  let l := WaitListener p predicate in
  (p, l, add_temporary_listener event_name l st1).

(** [wait_for] from its suspension on: [w] is how [await p.wait()] ended. *)
Definition wait_for_resume (event_name : string) (l : callable)
    (w : completion outcome) (st : state) : state * completion value :=
  match w with
  | Raised e => (remove_listener_early event_name l st, Raised e)
  | Returned output =>
      match unwrap output with
      | Raised e => (st, Raised e)
      | Returned result =>
          match py_len result with
          | Raised e => (st, Raised e)
          | Returned n =>
              if decide (n = 1) then (st, py_item0 result)
              else (st, Returned result)
          end
      end
  end.

(** [wait_for].  [suspended] is what happens between the registration and
    the end of [p.wait()]: it takes the promise and the listener (so that it
    can talk about them), transforms the state and says whether the wait is
    interrupted by an exception.  The result is [None] when the promise is
    never settled and the wait is not interrupted. *)
Definition wait_for (event_name : string) (predicate : option nat)
    (suspended : nat -> callable -> state -> state * option exn) (st : state)
  : option (state * completion value) :=
  let '(p, l, st1) := wait_for_register event_name predicate st in
  let '(st2, interrupt) := suspended p l st1 in
  match interrupt with
  | Some e => Some (wait_for_resume event_name l (Raised e) st2)
  | None =>
      match promise_wait p st2 with
      | None => None
      | Some output => Some (wait_for_resume event_name l (Returned output) st2)
      end
  end.

End EventManager.

(** The tasks spawned between [st] and [st']. *)
Definition spawned_by (st st' : state) : list task :=
  drop (length (task_manager st)) (task_manager st').

(** The callable a task invokes. *)
Definition task_callable (t : task) : callable :=
  match t with
  | HookTask hook _ _ => hook
  | SafetyTask handler _ _ => handler
  | ListenerTask _ l _ _ => l
  end.

(** The call a task makes: the callable with the arguments of the firing. *)
Definition task_invocation (t : task) : callable * list value * kwargs_t :=
  match t with
  | HookTask hook args kwargs => (hook, args, kwargs)
  | SafetyTask handler args kwargs => (handler, args, kwargs)
  | ListenerTask _ l args kwargs => (l, args, kwargs)
  end.

(** The calls made between [st] and [st']. *)
Definition calls_since (st st' : state) : list (callable * list value * kwargs_t) :=
  drop (length (calls st)) (calls st').

(** The promise captured by a [listener] closure has been allocated. *)
Definition allocated (st : state) (func : callable) : bool :=
  match func with
  | UserFn _ => true
  | WaitListener cell _ => bool_decide (cell < length (promises st))
  end.

(** The callables the manager holds: hooks, handlers, listeners, and those
    of the pending tasks. *)
Definition held_callables (st : state) : list callable :=
  elements (event_hooks st) ++ (event_listeners st).*2
    ++ (temporary_listeners st).*2 ++ map task_callable (task_manager st).

(** Every [listener] closure the manager holds captures a promise that has
    been allocated: the promise, and so the listener, of a new [wait_for]
    call is new. *)
Definition closures_allocated (st : state) : bool :=
  forallb (allocated st) (held_callables st).

(** What the [listener] of [wait_for] settles its promise with, if it does. *)
Definition listener_verdict (predicate_body : nat -> list value -> completion value)
    (predicate : option nat) (args : list value) : option outcome :=
  match predicate with
  | None => Some (Value VNone)
  | Some p =>
      match predicate_body p args with
      | Raised ListenerExit => Some (Value (VTuple args))
      | Raised e => Some (Error e)
      | Returned res => if is_True res then Some (Value (VTuple args)) else None
      end
  end.

(** ** Sample user code, for the concrete runs *)

(** Handler 1 faults, handler 2 raises [ListenerExit], every other handler
    returns. *)
Definition sample_handler (id : nat) (args : list value) (kwargs : kwargs_t)
  : completion unit :=
  match id with
  | 1 => Raised (Fault 7)
  | 2 => Raised ListenerExit
  | _ => Returned tt
  end.

(** Predicate 0 returns [True], predicate 1 returns [1], predicate 2 faults,
    predicate 3 returns whether the first argument is [2], every other
    predicate returns [False]. *)
Definition sample_predicate (id : nat) (args : list value) : completion value :=
  match id with
  | 0 => Returned (VBool true)
  | 1 => Returned (VInt 1)
  | 2 => Raised (Fault 3)
  | 3 => match args with
         | VInt 2 :: _ => Returned (VBool true)
         | _ => Returned (VBool false)
         end
  | _ => Returned (VBool false)
  end.

(** Keyword arguments as the gateway passes them: [gateway=gw], with
    [gw.session.shard_id == 0]. *)
Definition gateway_kwargs : kwargs_t := {[ "gateway" := VGateway 0 ]}.

(** While the [wait_for] caller is suspended: one event is fired and every
    spawned task runs. *)
Definition one_firing (event_name : string) (args : list value)
    (p : nat) (l : callable) (st : state) : state * option exn :=
  (dispatch sample_handler sample_predicate event_name args gateway_kwargs st,
   None).

(** While the [wait_for] caller is suspended: two events are fired, one
    after the other, each followed by the run of the spawned tasks. *)
Definition two_firings (event_name : string) (args1 args2 : list value)
    (p : nat) (l : callable) (st : state) : state * option exn :=
  (dispatch sample_handler sample_predicate event_name args2 gateway_kwargs
     (dispatch sample_handler sample_predicate event_name args1 gateway_kwargs st),
   None).

(** A manager with the hook 5, the permanent handlers 0 and 1 under ["E"]
    and the temporary listener 2 under ["E"]. *)
Definition sample_manager : state :=
  let any_async (_ : nat) := true in
  let no_events (_ : nat) : option (list string) := None in
  let st1 := (add_event any_async no_events (UserFn 0) (Some "E") new_manager).1 in
  let st2 := (add_event any_async no_events (UserFn 1) (Some "E") st1).1 in
  add_event_hook (UserFn 5) (add_temporary_listener "E" (UserFn 2) st2).

(** * The curio websocket wrapper *)

Module CurioWebsocketWrapper.

(** The events the persisted lomond websocket yields: the poll marker and
    all the others. *)
Inductive Event : Type :=
| Poll
| Other (id : nat).

#[global] Instance Event_eq_dec : EqDecision Event.
Proof. solve_decision. Defined.

(** The thunks put on [_send_queue]: [partial(self._ws.send_text, message)]
    by [send_text], the closure [_close] by [close]. *)
Inductive action : Type :=
| SendText (message : string)
| Close (code : Z) (reason : string) (reconnect : bool).

(** Calls made on the lomond websocket. *)
Inductive ws_call : Type :=
| WsSendText (message : string)
| WsClose (code : Z) (reason : string).

(** What is put on [_queue]: an event, or the sentinel [self._done]. *)
Inductive queue_item : Type :=
| Item (event : Event)
| Done.

(** The wrapper.  Both queues are FIFO, head first.  [task_cancelled]: the
    handler task has been asked to cancel; [ws_calls]: the calls made on
    [_ws]; [executed]: the thunks executed by the handler, in order. *)
Record wrapper : Type := mkWrapper {
  _send_queue : list action;
  _queue : list queue_item;
  _cancelled : bool;
  task_cancelled : bool;
  ws_calls : list ws_call;
  executed : list action
}.

Definition new_wrapper : wrapper := mkWrapper [] [] false false [] [].

(** [await self._send_queue.put(p)]. *)
Definition enqueue (a : action) (w : wrapper) : wrapper :=
  mkWrapper (_send_queue w ++ [a]) (_queue w) (_cancelled w)
    (task_cancelled w) (ws_calls w) (executed w).

(** [send_text] builds [partial(self._ws.send_text, message)] at once:
    [_ws] is [None] until the handler thread has made the websocket, and
    while it is, reading [self._ws.send_text] raises [AttributeError] and
    nothing is queued. *)
Definition send_text (_ws : option unit) (message : string) (w : wrapper)
  : wrapper * completion unit :=
  match _ws with
  | None => (w, Raised AttributeError)
  | Some _ => (enqueue (SendText message) w, Returned tt)
  end.

Definition close (code : Z) (reason : string) (reconnect : bool)
    (w : wrapper) : wrapper :=
  enqueue (Close code reason reconnect) w.

(** [next_send()]. *)
Definition run_action (a : action) (w : wrapper) : wrapper :=
  match a with
  | SendText message =>
      mkWrapper (_send_queue w) (_queue w) (_cancelled w) (task_cancelled w)
        (ws_calls w ++ [WsSendText message]) (executed w ++ [a])
  | Close code reason reconnect =>
      mkWrapper (_send_queue w) (_queue w)
        (if reconnect then _cancelled w else true)
        (if reconnect then task_cancelled w else true)
        (ws_calls w ++ [WsClose code reason]) (executed w ++ [a])
  end.

(** [self._queue.put(item)]. *)
Definition put (item : queue_item) (w : wrapper) : wrapper :=
  mkWrapper (_send_queue w) (_queue w ++ [item]) (_cancelled w)
    (task_cancelled w) (ws_calls w) (executed w).

(** The body of the loop of [websocket_handler], for one event. *)
Definition handle (event : Event) (w : wrapper) : wrapper :=
  match event with
  | Poll =>
      match _send_queue w with
      | [] => w
      | next_send :: rest =>
          run_action next_send
            (mkWrapper rest (_queue w) (_cancelled w) (task_cancelled w)
               (ws_calls w) (executed w))
      end
  | Other _ => put (Item event) w
  end.

(** The loop of [websocket_handler], on the events the websocket yields. *)
Definition handle_all (events : list Event) (w : wrapper) : wrapper :=
  foldl (fun w event => handle event w) w events.

(** [websocket_handler], when the websocket ends after [events]. *)
Definition websocket_handler (events : list Event) (w : wrapper) : wrapper :=
  put Done (handle_all events w).

(** [n] poll ticks in a row. *)
Definition ticks (n : nat) : list Event := replicate n Poll.

(** The number of poll ticks among events. *)
Definition polls (events : list Event) : nat :=
  length (filter (fun event => event = Poll) events).

(** The events that are not poll ticks. *)
Definition non_polls (events : list Event) : list Event :=
  filter (fun event => event ≠ Poll) events.

(** [__aiter__], on what [_queue] holds: the events yielded, and whether
    the sentinel was met (the iteration is over) or the queue ran out (the
    consumer waits for more). *)
Fixpoint __aiter__ (queue : list queue_item) : list Event * bool :=
  match queue with
  | [] => ([], false)
  | Item event :: rest =>
      let '(events, over) := __aiter__ rest in (event :: events, over)
  | Done :: _ => ([], true)
  end.

(** The call a thunk makes on the websocket. *)
Definition ws_call_of (a : action) : ws_call :=
  match a with
  | SendText message => WsSendText message
  | Close code reason _ => WsClose code reason
  end.

(** The thunks that set the cancellation flag and cancel the task: the
    closes without reconnect. *)
Definition cancels (a : action) : bool :=
  match a with
  | SendText _ => false
  | Close _ _ reconnect => negb reconnect
  end.

End CurioWebsocketWrapper.

(** ** More sample user code *)

(** Every function but 9 is an [async def]. *)
Definition sample_async (id : nat) : bool := negb (id =? 9).

(** Function 6 carries [events = ["A", "B", "A"]], function 0 an empty
    [events]; the others have no [events] attribute. *)
Definition sample_events (id : nat) : option (list string) :=
  match id with
  | 6 => Some ["A"; "B"; "A"]
  | 0 => Some []
  | _ => None
  end.

(** Keyword arguments with something besides the gateway. *)
Definition extra_kwargs : kwargs_t :=
  {[ "gateway" := VGateway 0; "extra" := VInt 2 ]}.

(** * Permissions *)

(** [curious/dataclasses/permissions.py].  A [Permissions] object is its
    [bitfield], a Python integer; an attribute set returns the new
    bitfield.  Attribute access is modelled for the generated permission
    properties; [None] stands for any other attribute name. *)
Module Permissions.

(** What the methods raise. *)
Inductive error : Type :=
| ValueError (perm : string)
| PermissionsError (permission : string)
| AttributeError (item : string)
| TypeError
| RuntimeError.

Inductive result (A : Type) : Type :=
| Ok (a : A)
| Err (e : error).
Arguments Ok {A} a.
Arguments Err {A} e.

(** The class attribute [PERMISSION_MAPPING]. *)
Definition PERMISSION_MAPPING : list (string * nat) :=
  [("create_instant_invite", 0); ("kick_members", 1); ("ban_members", 2);
   ("administrator", 3); ("manage_channels", 4); ("manage_server", 5);
   ("add_reactions", 6); ("view_audit_log", 7); ("read_messages", 10);
   ("send_messages", 11); ("send_tts_messages", 12); ("manage_messages", 13);
   ("embed_links", 14); ("attach_files", 15); ("read_message_history", 16);
   ("mention_everyone", 17); ("use_external_emojis", 18);
   ("voice_connect", 20); ("voice_speak", 21); ("voice_mute_members", 22);
   ("voice_deafen_members", 23); ("voice_move_members", 24);
   ("voice_use_voice_activation", 25); ("change_nickname", 26);
   ("manage_nicknames", 27); ("manage_roles", 28); ("manage_webhooks", 29);
   ("manage_emojis", 30)].

(** The generated properties, in the order of the class body: the name of
    each property and the bit its getter reads and its setter writes. *)
Definition properties : list (string * nat) :=
  [("create_instant_invite", 0);
   ("kick_members", 1);
   ("ban_members", 2);
   ("administrator", 3);
   ("manage_channels", 4);
   ("manage_server", 5);
   ("add_reactions", 6);
   ("view_audit_log", 7);
   ("read_messages", 10);
   ("send_messages", 11);
   ("send_tts_messages", 12);
   ("manage_messages", 13);
   ("embed_links", 14);
   ("attach_files", 15);
   ("read_message_history", 16);
   ("mention_everyone", 17);
   ("use_external_emojis", 18);
   ("voice_connect", 20);
   ("voice_speak", 21);
   ("voice_mute_members", 22);
   ("voice_deafen_members", 23);
   ("voice_move_members", 24);
   ("voice_use_voice_activation", 25);
   ("change_nickname", 26);
   ("manage_nicknames", 27);
   ("manage_roles", 28);
   ("manage_webhooks", 29);
   ("manage_emojis", 30)].

(** The entry of a name in a table. *)
Fixpoint entry (name : string) (table : list (string * nat)) : option nat :=
  match table with
  | [] => None
  | (n, bit) :: table' => if decide (n = name) then Some bit else entry name table'
  end.

(** [bool((self.bitfield >> bit) & 1)]. *)
Definition _get_bit (bit : nat) (bitfield : Z) : bool :=
  negb (Z.land (Z.shiftr bitfield (Z.of_nat bit)) 1 =? 0)%Z.

(** [self.bitfield |= 1 << bit] when the value is truthy,
    [self.bitfield &= ~(1 << bit)] otherwise. *)
Definition _set_bit (bit : nat) (v : value) (bitfield : Z) : Z :=
  if truthy v then Z.lor bitfield (Z.shiftl 1 (Z.of_nat bit))
  else Z.land bitfield (Z.lnot (Z.shiftl 1 (Z.of_nat bit))).

(** [getattr(perms, name)] for a permission property. *)
Definition get_permission (name : string) (bitfield : Z) : option bool :=
  match entry name properties with
  | Some bit => Some (_get_bit bit bitfield)
  | None => None
  end.

(** [setattr(perms, name, v)] for a permission property. *)
Definition set_permission (name : string) (v : value) (bitfield : Z) : option Z :=
  match entry name properties with
  | Some bit => Some (_set_bit bit v bitfield)
  | None => None
  end.

(** The loop of [__init__] over the keyword arguments, in their order.  A
    name of the mapping without a property would become a plain attribute
    and leave the bitfield alone. *)
Fixpoint init_kwargs (kwargs : list (string * value)) (bitfield : Z) : result Z :=
  match kwargs with
  | [] => Ok bitfield
  | (perm, v) :: kwargs' =>
      match entry perm PERMISSION_MAPPING with
      | None => Err (ValueError perm)
      | Some _ =>
          match set_permission perm v bitfield with
          | Some bitfield' => init_kwargs kwargs' bitfield'
          | None => init_kwargs kwargs' bitfield
          end
      end
  end.

(** [Permissions(value, **kwargs)], for an integer [value]. *)
Definition __init__ (v : Z) (kwargs : list (string * value)) : result Z :=
  init_kwargs kwargs v.

(** [Permissions.all()] and [Permissions.none()]. *)
Definition all : Z := 9007199254740991.
Definition none : Z := 0.

(** [raise_for_permission], for a permission property. *)
Definition raise_for_permission (permission : string) (bitfield : Z)
  : option (result unit) :=
  match get_permission permission bitfield with
  | Some true => Some (Ok tt)
  | Some false => Some (Err (PermissionsError permission))
  | None => None
  end.

End Permissions.

(** * Permission overwrites *)

Module Overwrite.
Import Permissions.

(** What an overwrite is for: a user, a member with its guild permissions,
    a role with its permissions, or anything else. *)
Inductive target_t : Type :=
| User
| Member (guild_permissions : Z)
| Role (permissions : Z)
| OtherTarget.

(** The slots of an overwrite; [allow] and [deny] are the bitfields of the
    two [Permissions] objects, [_immutable] the truth value of the slot. *)
Record t : Type := mkOverwrite {
  target : target_t;
  channel_id : option Z;
  allow : Z;
  deny : Z;
  _immutable : bool
}.

(** [Overwrite(allow, deny, obb, channel_id)], with integers or [None] for
    [allow] and [deny]. *)
Definition __init__ (allow deny : option Z) (obb : target_t)
    (channel_id : option Z) : t :=
  mkOverwrite obb channel_id (default 0%Z allow) (default 0%Z deny) false.

(** The permissions [__getattr__] falls back on. *)
Definition base_permissions (obb : target_t) : result Z :=
  match obb with
  | User => Ok 515136%Z
  | Member guild_permissions => Ok guild_permissions
  | Role permissions => Ok permissions
  | OtherTarget => Err TypeError
  end.

(** [permissions.administrator]. *)
Definition administrator (bitfield : Z) : bool := _get_bit 3 bitfield.

(** [__getattr__(item)], for an item that no slot answers ([_immutable] is
    a slot of an initialised overwrite). *)
Definition __getattr__ (item : string) (o : t) : option (result bool) :=
  if bool_decide (item = "_immutable") then None
  else
    match base_permissions (target o) with
    | Err e => Some (Err e)
    | Ok permissions =>
        if administrator permissions then Some (Ok true)
        else
          match entry item properties with
          | None => None
          | Some bit =>
              if _get_bit bit (allow o) then Some (Ok true)
              else if _get_bit bit (deny o) then Some (Ok false)
              else Some (Ok (_get_bit bit permissions))
          end
    end.

(** [__setattr__(key, value)] on an initialised overwrite, for the key
    [_immutable] and for the permission properties. *)
Definition __setattr__ (key : string) (v : value) (o : t) : option (result t) :=
  if negb (bool_decide (key = "_immutable")) && _immutable o
  then Some (Err RuntimeError)
  else if bool_decide (key = "_immutable")
  then Some (Ok (mkOverwrite (target o) (channel_id o) (allow o) (deny o)
                   (truthy v)))
  else
    match entry key properties with
    | None => None
    | Some bit =>
        match v with
        | VBool false =>
            Some (Ok (mkOverwrite (target o) (channel_id o) (allow o)
                        (_set_bit bit (VBool true) (deny o)) (_immutable o)))
        | VBool true =>
            Some (Ok (mkOverwrite (target o) (channel_id o)
                        (_set_bit bit (VBool true) (allow o)) (deny o)
                        (_immutable o)))
        | VNone =>
            Some (Ok (mkOverwrite (target o) (channel_id o)
                        (_set_bit bit (VBool false) (allow o))
                        (_set_bit bit (VBool false) (deny o))
                        (_immutable o)))
        | _ => Some (Ok o)
        end
    end.

End Overwrite.

(** ** More samples *)


(** Handlers that always return. *)
Definition returning_handler (id : nat) (args : list value) (kwargs : kwargs_t)
  : completion unit :=
  Returned tt.

(** An overwrite for a role that can read messages (bit 10) and nothing
    else, allowing and denying nothing. *)
Definition sample_overwrite : Overwrite.t :=
  Overwrite.__init__ None None (Overwrite.Role 1024) (Some 7%Z).

(** A wrapper with two texts queued, once its websocket is made. *)
Definition sample_wrapper : CurioWebsocketWrapper.wrapper :=
  (CurioWebsocketWrapper.send_text (Some tt) "b"
     (CurioWebsocketWrapper.send_text (Some tt) "a"
        CurioWebsocketWrapper.new_wrapper).1).1.

(** * The event manager, whatever its callables

    The manager of the sections above is the manager in use: its task
    manager has been set, its handlers and listeners are functions, which
    carry a [__name__], and no keyword argument of a firing is named like a
    parameter of [_listener_wrapper].  The code asks for none of this:
    [task_manager] is [None] in a new manager, [add_event] takes every
    callable that passes [inspect.iscoroutinefunction] (a
    [functools.partial] of an [async def] does, and has no [__name__]),
    [add_temporary_listener] takes any object, and [fire_event] passes its
    keyword arguments on.  This module follows the code there too. *)

Module General.

(** A call that gives a keyword argument named like a parameter it fills by
    position raises [TypeError] before the body runs.  [binds params kwargs]:
    no keyword is named like one of [params]. *)
Definition binds (params : list string) (kwargs : kwargs_t) : bool :=
  forallb (fun p => bool_decide (kwargs !! p = None)) params.

(** The call that starts the task binds its arguments: a hook and the
    partial application of a handler take the keyword arguments as they
    are, [_listener_wrapper] has parameters of its own. *)
Definition task_binds (t : task) : bool :=
  match t with
  | ListenerTask _ _ _ kwargs => binds ["self"; "key"; "func"] kwargs
  | _ => true
  end.

Section General.

(** Whether [task_manager] has been set, which user callables carry a
    [__name__], and the user's code as above. *)
Variable task_manager_set : bool.
Variable has_name : nat -> bool.
Variable handler_body : nat -> list value -> kwargs_t -> completion unit.
Variable predicate_body : nat -> list value -> completion value.

(** Whether [func.__name__] can be read; the [listener] of [wait_for] is a
    function. *)
Definition named (func : callable) : bool :=
  match func with
  | UserFn id => has_name id
  | WaitListener _ _ => true
  end.

(** [spawn]: [self.task_manager.spawn] raises [AttributeError] while
    [task_manager] is [None]. *)
Definition spawn (t : task) (st : state) : state * completion unit :=
  if task_manager_set
  then (set_task_manager (task_manager st ++ [t]) st, Returned tt)
  else (st, Raised AttributeError).

(** A loop of [fire_event] that only spawns: it ends at the first
    exception. *)
Fixpoint spawn_each (ts : list task) (st : state) : state * completion unit :=
  match ts with
  | [] => (st, Returned tt)
  | t :: ts' =>
      match spawn t st with
      | (st1, Returned _) => spawn_each ts' st1
      | (st1, Raised e) => (st1, Raised e)
      end
  end.

(** The loop over the permanent handlers: [handler.__name__] is read before
    the wrapper of the handler is spawned. *)
Fixpoint spawn_handlers (handlers : list callable) (args : list value)
    (kwargs : kwargs_t) (st : state) : state * completion unit :=
  match handlers with
  | [] => (st, Returned tt)
  | handler :: handlers' =>
      if named handler
      then
        match spawn (SafetyTask handler args kwargs) st with
        | (st1, Returned _) => spawn_handlers handlers' args kwargs st1
        | (st1, Raised e) => (st1, Raised e)
        end
      else (st, Raised AttributeError)
  end.

(** [fire_event(event_name, *args, **kwargs)], from the call on.  The
    context is set before anything is spawned, and an exception of a loop
    leaves the function with the tasks spawned so far. *)
Definition fire_event (event_name : string) (args : list value)
    (kwargs : kwargs_t) (st : state) : state * completion unit :=
  if negb (binds ["self"; "event_name"] kwargs) then (st, Raised TypeError)
  else
    match resolve_context event_name kwargs with
    | Raised e => (st, Raised e)
    | Returned (ctx, kwargs') =>
        let st1 := set_event_context (Some ctx) st in
        match spawn_each (hook_tasks args kwargs' st1) st1 with
        | (st2, Raised e) => (st2, Raised e)
        | (st2, Returned _) =>
            match spawn_handlers (getall event_name (event_listeners st2))
                    args kwargs' st2 with
            | (st3, Raised e) => (st3, Raised e)
            | (st3, Returned _) =>
                spawn_each (listener_tasks event_name args kwargs' st3) st3
            end
        end
    end.

(** [self._listener_wrapper(key, func, *args, **kwargs)], from the call on:
    the call of the partial application that [fire_event] spawns.  The
    handler of a fault reads [func.__name__] for the log before it removes
    the listener. *)
Definition _listener_wrapper (key : string) (func : callable)
    (args : list value) (kwargs : kwargs_t) (st : state)
  : state * completion unit :=
  if negb (binds ["self"; "key"; "func"] kwargs) then (st, Raised TypeError)
  else
    let '(st1, r) := invoke handler_body predicate_body func args kwargs st in
    match r with
    | Returned _ => (st1, Returned tt)
    | Raised ListenerExit =>
        (set_temporary_listeners
           (remove_from_multidict (temporary_listeners st1) key func) st1,
         Returned tt)
    | Raised e =>
        if named func
        then
          let st2 := add_log (LogUnhandledListener func e) st1 in
          (set_temporary_listeners
             (remove_from_multidict (temporary_listeners st2) key func) st2,
           Returned tt)
        else (st1, Raised AttributeError)
    end.

(** Running one spawned task to its end.  The safety wrapper is called with
    the partial application of the handler, which carries the [__name__]
    that [fire_event] gave it: it is the wrapper of the sections above. *)
Definition run_task (t : task) (st : state) : state * completion unit :=
  match t with
  | HookTask hook args kwargs =>
      invoke handler_body predicate_body hook args kwargs st
  | SafetyTask handler args kwargs =>
      _safety_wrapper handler_body predicate_body handler args kwargs st
  | ListenerTask key l args kwargs => _listener_wrapper key l args kwargs st
  end.

Fixpoint run_tasks (ts : list task) (st : state)
  : state * list (completion unit) :=
  match ts with
  | [] => (st, [])
  | t :: ts' =>
      let '(st1, r) := run_task t st in
      let '(st2, rs) := run_tasks ts' st1 in
      (st2, r :: rs)
  end.

Definition run_pending (st : state) : state * list (completion unit) :=
  run_tasks (task_manager st) (set_task_manager [] st).

(** A firing followed by the run of every pending task: the tasks spawned
    before an exception of the firing are run too. *)
Definition dispatch (event_name : string) (args : list value)
    (kwargs : kwargs_t) (st : state) : state :=
  (run_pending (fire_event event_name args kwargs st).1).1.

End General.

End General.

(** ** Sample callables without a name *)

(** Functions 1 and 4 are [functools.partial] objects: they have no
    [__name__]. *)
Definition sample_names (id : nat) : bool :=
  match id with
  | 1 | 4 => false
  | _ => true
  end.

(** Every callable is a function. *)
Definition all_named (id : nat) : bool := true.




(** Keyword arguments with a keyword named like a parameter of
    [_listener_wrapper]. *)
Definition key_kwargs : kwargs_t :=
  {[ "gateway" := VGateway 0; "key" := VStr "k" ]}.

(** * Facts about MultiDict *)

Section MultiDictFacts.

Implicit Types (d : MultiDict) (key : string) (item : callable).

Lemma getall_cons_eq key item d :
  getall key ((key, item) :: d) = item :: getall key d.
Proof. simpl. by rewrite decide_True. Qed.

Lemma getall_cons_ne key k item d :
  k ≠ key → getall key ((k, item) :: d) = getall key d.
Proof. intros. simpl. by rewrite decide_False. Qed.

Lemma getall_app key d1 d2 :
  getall key (d1 ++ d2) = getall key d1 ++ getall key d2.
Proof.
  induction d1 as [| [k v] d1 IH]; simpl; [done |].
  destruct (decide (k = key)); simpl; by rewrite IH.
Qed.

Lemma getall_md_add key key' item d :
  getall key (md_add key' item d) =
  getall key d ++ (if decide (key' = key) then [item] else []).
Proof. unfold md_add. rewrite getall_app. simpl. by destruct (decide (key' = key)). Qed.

Lemma elem_of_getall key item d :
  item ∈ getall key d ↔ (key, item) ∈ d.
Proof.
  induction d as [| [k v] d IH].
  - simpl. split; intros H; inversion H.
  - destruct (decide (k = key)) as [-> | Hk].
    + rewrite getall_cons_eq, !elem_of_cons, IH. split.
      * intros [-> | H]; [by left | by right].
      * intros [Heq | H]; [left; congruence | by right].
    + rewrite getall_cons_ne by done. rewrite elem_of_cons, IH.
      split; [by right |]. intros [Heq | H]; [congruence | done].
Qed.

Lemma remove_from_multidict_absent d key item :
  item ∉ getall key d → remove_from_multidict d key item = d.
Proof.
  rewrite elem_of_getall.
  induction d as [| [k v] d IH]; simpl; [done |].
  rewrite not_elem_of_cons. intros [Hne Hnot].
  destruct (decide (k = key ∧ v = item)) as [[-> ->] | Hkv]; [done |].
  f_equal. by apply IH.
Qed.

Lemma remove_from_multidict_md_add d key item :
  item ∉ getall key d →
  remove_from_multidict (md_add key item d) key item = d.
Proof.
  rewrite elem_of_getall. unfold md_add.
  induction d as [| [k v] d IH]; simpl.
  - intros _. by rewrite decide_True.
  - rewrite not_elem_of_cons. intros [Hne Hnot].
    destruct (decide (k = key ∧ v = item)) as [[-> ->] | Hkv]; [done |].
    f_equal. by apply IH.
Qed.

Lemma getall_remove_other d key key' item :
  key' ≠ key →
  getall key' (remove_from_multidict d key item) = getall key' d.
Proof.
  intros Hne. induction d as [| [k v] d IH]; [done |].
  cbn [remove_from_multidict].
  destruct (decide (k = key ∧ v = item)) as [[-> ->] | Hkv].
  - by rewrite getall_cons_ne.
  - simpl. by rewrite IH.
Qed.

Lemma elem_of_remove_from_multidict d key item entry :
  entry ∈ remove_from_multidict d key item → entry ∈ d.
Proof.
  induction d as [| [k v] d IH]; simpl; [done |].
  destruct (decide (k = key ∧ v = item)) as [_ | _].
  - by right.
  - rewrite !elem_of_cons. intros [-> | H']; [by left | right; by apply IH].
Qed.

Lemma elem_of_remove_other d key item k v :
  (k, v) ∈ d → (k, v) ≠ (key, item) →
  (k, v) ∈ remove_from_multidict d key item.
Proof.
  intros Hin Hne. induction d as [| [k0 v0] d IH]; [inversion Hin |].
  apply elem_of_cons in Hin. cbn [remove_from_multidict].
  destruct (decide (k0 = key ∧ v0 = item)) as [[-> ->] | Hkv].
  - destruct Hin as [Heq | Hin]; [congruence | done].
  - destruct Hin as [Heq | Hin]; [rewrite Heq; by left | right; by apply IH].
Qed.

Lemma registrations_cons_eq key item d :
  registrations key item ((key, item) :: d) = S (registrations key item d).
Proof.
  unfold registrations. rewrite getall_cons_eq.
  by rewrite filter_cons_True.
Qed.

Lemma registrations_cons_ne key item k v d :
  (k, v) ≠ (key, item) →
  registrations key item ((k, v) :: d) = registrations key item d.
Proof.
  intros Hne. unfold registrations.
  destruct (decide (k = key)) as [-> | Hk].
  - rewrite getall_cons_eq. rewrite filter_cons_False; [done | congruence].
  - by rewrite getall_cons_ne.
Qed.

Lemma registrations_remove d key item :
  registrations key item (remove_from_multidict d key item) =
  pred (registrations key item d).
Proof.
  induction d as [| [k v] d IH]; [done |].
  cbn [remove_from_multidict].
  destruct (decide (k = key ∧ v = item)) as [[-> ->] | Hkv].
  - by rewrite registrations_cons_eq.
  - assert ((k, v) ≠ (key, item)) by (intros [= -> ->]; by apply Hkv).
    by rewrite !registrations_cons_ne.
Qed.

Lemma registrations_remove_other d key item key' item' :
  (key', item') ≠ (key, item) →
  registrations key' item' (remove_from_multidict d key item) =
  registrations key' item' d.
Proof.
  intros Hne. induction d as [| [k v] d IH]; [done |].
  cbn [remove_from_multidict].
  destruct (decide (k = key ∧ v = item)) as [[-> ->] | Hkv].
  - rewrite registrations_cons_ne; [done | congruence].
  - destruct (decide ((k, v) = (key', item'))) as [[= -> ->] | Hkv'].
    + by rewrite !registrations_cons_eq, IH.
    + by rewrite !registrations_cons_ne.
Qed.

Lemma registrations_zero key item d :
  registrations key item d = 0 ↔ item ∉ getall key d.
Proof.
  rewrite elem_of_getall.
  induction d as [| [k v] d IH].
  - split; [intros _ H; inversion H | done].
  - rewrite not_elem_of_cons.
    destruct (decide ((k, v) = (key, item))) as [[= -> ->] | Hkv].
    + rewrite registrations_cons_eq. split; [done | by intros [? _]].
    + rewrite registrations_cons_ne by done. rewrite IH.
      split; [by intros; split; [congruence |] | by intros [_ ?]].
Qed.

Lemma registrations_md_add key item key' item' d :
  registrations key item (md_add key' item' d) =
  registrations key item d +
  (if decide ((key', item') = (key, item)) then 1 else 0).
Proof.
  unfold md_add. induction d as [| [k v] d IH].
  - simpl. destruct (decide ((key', item') = (key, item))) as [[= -> ->] | Hne].
    + by rewrite registrations_cons_eq.
    + by rewrite registrations_cons_ne.
  - simpl. destruct (decide ((k, v) = (key, item))) as [[= -> ->] | Hkv].
    + rewrite !registrations_cons_eq. simpl in IH. by rewrite IH.
    + rewrite !registrations_cons_ne by done. apply IH.
Qed.

End MultiDictFacts.

(** * Facts about the event manager *)

Section EventManagerFacts.

Variable iscoroutinefunction : nat -> bool.
Variable func_events : nat -> option (list string).
Variable handler_body : nat -> list value -> kwargs_t -> completion unit.
Variable predicate_body : nat -> list value -> completion value.

Implicit Types (st : state) (func l : callable) (args : list value)
  (kwargs : kwargs_t) (key name : string).

(** ** The state components each operation leaves alone *)

Lemma state_eta st :
  mkState (task_manager st) (event_hooks st) (event_listeners st)
    (temporary_listeners st) (promises st) (event_context st) (calls st)
    (log st) = st.
Proof. by destruct st. Qed.

Lemma promise_set_frame cell o st :
  task_manager (promise_set cell o st) = task_manager st
  ∧ registries (promise_set cell o st) = registries st
  ∧ calls (promise_set cell o st) = calls st
  ∧ log (promise_set cell o st) = log st
  ∧ length (promises (promise_set cell o st)) = length (promises st).
Proof.
  unfold promise_set. destruct (promises st !! cell) as [[? |] |]; simpl;
    rewrite ?length_insert; done.
Qed.

Lemma promise_set_unset cell o st :
  promises st !! cell = Some None →
  promise_wait cell (promise_set cell o st) = Some o.
Proof.
  intros Hcell. unfold promise_wait, promise_set. rewrite Hcell. simpl.
  rewrite list_lookup_insert_eq; [done |].
  by apply lookup_lt_Some in Hcell.
Qed.

Lemma promise_set_settled cell o o' st :
  promise_wait cell st = Some o' →
  promise_set cell o st = st.
Proof.
  unfold promise_wait, promise_set.
  by destruct (promises st !! cell) as [[? |] |].
Qed.

Lemma promise_set_other cell cell' o st :
  cell ≠ cell' →
  promises (promise_set cell o st) !! cell' = promises st !! cell'.
Proof.
  intros Hne. unfold promise_set.
  destruct (promises st !! cell) as [[? |] |]; simpl; try done.
  by rewrite list_lookup_insert_ne.
Qed.

Lemma listener_frame cell predicate args st :
  task_manager (listener predicate_body cell predicate args st).1 = task_manager st
  ∧ registries (listener predicate_body cell predicate args st).1 = registries st
  ∧ calls (listener predicate_body cell predicate args st).1 = calls st
  ∧ length (promises (listener predicate_body cell predicate args st).1)
    = length (promises st).
Proof.
  unfold listener, promise_set.
  repeat (case_match; simpl); rewrite ?length_insert; done.
Qed.

Lemma invoke_frame func args kwargs st :
  task_manager (invoke handler_body predicate_body func args kwargs st).1
    = task_manager st
  ∧ registries (invoke handler_body predicate_body func args kwargs st).1
    = registries st
  ∧ calls (invoke handler_body predicate_body func args kwargs st).1
    = calls st ++ [(func, args, kwargs)]
  ∧ length (promises (invoke handler_body predicate_body func args kwargs st).1)
    = length (promises st).
Proof.
  unfold invoke. destruct func as [id | cell predicate]; simpl; [done |].
  destruct (decide (kwargs = ∅)); simpl; [| done].
  apply (listener_frame cell predicate args
           (record_call (WaitListener cell predicate, args, kwargs) st)).
Qed.

Lemma spawn_each_task_manager ts st :
  task_manager (spawn_each ts st) = task_manager st ++ ts.
Proof.
  unfold spawn_each. revert st.
  induction ts as [| t ts IH]; intros st; cbn [foldl].
  - by rewrite app_nil_r.
  - rewrite IH. simpl. by rewrite <- app_assoc.
Qed.

Lemma spawn_each_frame ts st :
  registries (spawn_each ts st) = registries st
  ∧ promises (spawn_each ts st) = promises st
  ∧ event_context (spawn_each ts st) = event_context st
  ∧ calls (spawn_each ts st) = calls st
  ∧ log (spawn_each ts st) = log st.
Proof.
  unfold spawn_each. revert st.
  induction ts as [| t ts IH]; intros st; cbn [foldl]; [done |].
  destruct (IH (spawn t st)) as (-> & -> & -> & -> & ->). done.
Qed.

Lemma spawned_by_app st st' ts :
  task_manager st' = task_manager st ++ ts → spawned_by st st' = ts.
Proof. intros H. unfold spawned_by. rewrite H. by rewrite drop_app_length. Qed.

(** ** fire_event *)

(** What a firing does when the context resolves: the context variable is
    set, and the tasks of the hooks, of the permanent handlers and of the
    temporary listeners are spawned, in this order; nothing else changes. *)
Lemma fire_event_resolved name args kwargs ctx kwargs' st :
  resolve_context name kwargs = Returned (ctx, kwargs') →
  fire_event name args kwargs st =
  (mkState
     (task_manager st ++ hook_tasks args kwargs' st
        ++ handler_tasks name args kwargs' st
        ++ listener_tasks name args kwargs' st)
     (event_hooks st) (event_listeners st) (temporary_listeners st)
     (promises st) (Some ctx) (calls st) (log st),
   Returned tt).
Proof.
  intros Hres. unfold fire_event. rewrite Hres. f_equal.
  set (st1 := set_event_context (Some ctx) st).
  set (st2 := spawn_each (hook_tasks args kwargs' st1) st1).
  set (st3 := spawn_each (handler_tasks name args kwargs' st2) st2).
  set (st4 := spawn_each (listener_tasks name args kwargs' st3) st3).
  destruct (spawn_each_frame (hook_tasks args kwargs' st1) st1)
    as (Hr2 & Hp2 & Hc2 & Hk2 & Hl2).
  destruct (spawn_each_frame (handler_tasks name args kwargs' st2) st2)
    as (Hr3 & Hp3 & Hc3 & Hk3 & Hl3).
  destruct (spawn_each_frame (listener_tasks name args kwargs' st3) st3)
    as (Hr4 & Hp4 & Hc4 & Hk4 & Hl4).
  fold st2 in Hr2, Hp2, Hc2, Hk2, Hl2. fold st3 in Hr3, Hp3, Hc3, Hk3, Hl3.
  fold st4 in Hr4, Hp4, Hc4, Hk4, Hl4.
  unfold registries in Hr2, Hr3, Hr4.
  injection Hr2 as Hh2 He2 Ht2. injection Hr3 as Hh3 He3 Ht3.
  injection Hr4 as Hh4 He4 Ht4.
  rewrite <- (state_eta st4).
  f_equal;
    [ | congruence | congruence | congruence
      | by rewrite Hp4, Hp3, Hp2 | by rewrite Hc4, Hc3, Hc2
      | by rewrite Hk4, Hk3, Hk2 | by rewrite Hl4, Hl3, Hl2 ].
  unfold st4. rewrite spawn_each_task_manager.
  unfold st3 at 1. rewrite spawn_each_task_manager.
  unfold st2 at 1. rewrite spawn_each_task_manager.
  rewrite <- !app_assoc. simpl.
  unfold handler_tasks, listener_tasks, hook_tasks.
  rewrite Ht3, Ht2, He2. done.
Qed.

Lemma fire_event_spawned name args kwargs ctx kwargs' st :
  resolve_context name kwargs = Returned (ctx, kwargs') →
  spawned_by st (fire_event name args kwargs st).1 =
  hook_tasks args kwargs' st ++ handler_tasks name args kwargs' st
    ++ listener_tasks name args kwargs' st.
Proof.
  intros Hres. rewrite (fire_event_resolved _ _ _ _ _ _ Hres). simpl.
  by apply spawned_by_app.
Qed.

Lemma resolve_context_gateway name shard_id :
  resolve_context name {[ "gateway" := VGateway shard_id ]} =
  Returned ((shard_id, name), ∅).
Proof.
  unfold resolve_context.
  rewrite lookup_singleton_ne by done. rewrite lookup_singleton_eq.
  by rewrite delete_singleton_eq.
Qed.

(** ** The wrappers *)

Lemma _safety_wrapper_spec func args kwargs st :
  let inv := invoke handler_body predicate_body func args kwargs st in
  _safety_wrapper handler_body predicate_body func args kwargs st =
  (match inv.2 with
   | Returned _ => inv.1
   | Raised e => add_log (LogUnhandled func e) inv.1
   end, Returned tt).
Proof.
  unfold _safety_wrapper.
  destruct (invoke handler_body predicate_body func args kwargs st) as [st1 [[] | e]];
    done.
Qed.

Lemma _safety_wrapper_frame func args kwargs st :
  let st' := (_safety_wrapper handler_body predicate_body func args kwargs st).1 in
  task_manager st' = task_manager st
  ∧ registries st' = registries st
  ∧ calls st' = calls st ++ [(func, args, kwargs)].
Proof.
  rewrite _safety_wrapper_spec.
  destruct (invoke_frame func args kwargs st) as (Ht & Hr & Hc & _).
  destruct (invoke handler_body predicate_body func args kwargs st) as [st1 [[] | e]];
    simpl in *; done.
Qed.


Lemma _listener_wrapper_raised key func args kwargs e st st1 :
  invoke handler_body predicate_body func args kwargs st = (st1, Raised e) →
  (_listener_wrapper handler_body predicate_body key func args kwargs st).1 =
  set_temporary_listeners
    (remove_from_multidict (temporary_listeners st) key func)
    (if decide (e = ListenerExit) then st1
     else add_log (LogUnhandledListener func e) st1).
Proof.
  intros Hinv. unfold _listener_wrapper. rewrite Hinv.
  destruct (invoke_frame func args kwargs st) as (_ & Hr & _).
  rewrite Hinv in Hr. injection Hr as _ _ Ht. simpl in Ht.
  destruct e; simpl; by rewrite Ht.
Qed.

Lemma _listener_wrapper_frame key func args kwargs st :
  let st' := (_listener_wrapper handler_body predicate_body key func args kwargs st).1 in
  task_manager st' = task_manager st
  ∧ event_hooks st' = event_hooks st
  ∧ event_listeners st' = event_listeners st
  ∧ calls st' = calls st ++ [(func, args, kwargs)]
  ∧ length (promises st') = length (promises st)
  ∧ (temporary_listeners st' = temporary_listeners st
     ∨ temporary_listeners st' =
       remove_from_multidict (temporary_listeners st) key func).
Proof.
  destruct (invoke_frame func args kwargs st) as (Ht & Hr & Hc & Hp).
  destruct (invoke handler_body predicate_body func args kwargs st)
    as [st1 [[] | e]] eqn:Hinv.
  - unfold _listener_wrapper. rewrite Hinv. simpl in *.
    injection Hr as Hh He Htl. auto 10.
  - rewrite (_listener_wrapper_raised _ _ _ _ _ _ _ Hinv). simpl in *.
    injection Hr as Hh He Htl. destruct (decide (e = ListenerExit)); simpl; auto 10.
Qed.

(** ** A firing without context, and removals *)

(** C10. A [fire_event] call whose keyword arguments hold neither [ctx] nor
    [gateway] fails with [KeyError] (from [kwargs.pop("gateway")]) before
    anything is spawned: the state, and so the three registries and the
    task manager, is the one before the call. *)
Theorem fire_event_without_context name args kwargs st :
  kwargs !! "ctx" = None →
  kwargs !! "gateway" = None →
  fire_event name args kwargs st = (st, Raised (KeyError (KStr "gateway")))
  ∧ spawned_by st (fire_event name args kwargs st).1 = []
  ∧ registries (fire_event name args kwargs st).1 = registries st.
Proof.
  intros Hctx Hgw.
  assert (fire_event name args kwargs st = (st, Raised (KeyError (KStr "gateway"))))
    as Hfire.
  { unfold fire_event, resolve_context. by rewrite Hctx, Hgw. }
  rewrite Hfire. simpl. split_and!; [done | | done].
  unfold spawned_by. by rewrite drop_all.
Qed.

(** C9, as the code has it.  Removing a permanent handler that is not
    registered under the name ([remove_event]) changes nothing and raises
    nothing, and so does the removal the listener wrapper makes in the
    temporary registry for a listener that is not registered under the key;
    removing a hook that is not registered ([remove_event_hook]) raises
    [KeyError] and leaves the state, hence the three registries,
    unchanged. *)
Theorem removal_of_absent_entry name func st :
  (func ∉ getall name (event_listeners st) → remove_event name func st = st)
  ∧ (func ∉ getall name (temporary_listeners st) →
     set_temporary_listeners
       (remove_from_multidict (temporary_listeners st) name func) st = st)
  ∧ (func ∉ event_hooks st →
     remove_event_hook func st = (st, Raised (KeyError (KCallable func)))).
Proof.
  split_and!.
  - intros Hnot. unfold remove_event.
    rewrite remove_from_multidict_absent by done. by destruct st.
  - intros Hnot. rewrite remove_from_multidict_absent by done. by destruct st.
  - intros Hnot. unfold remove_event_hook. by rewrite decide_False.
Qed.

(** ** Permanent handlers *)


(** ** Temporary listeners *)


(** ** The listener of wait_for *)

Lemma wait_for_register_spec name predicate st :
  wait_for_register name predicate st =
  (length (promises st), WaitListener (length (promises st)) predicate,
   add_temporary_listener name (WaitListener (length (promises st)) predicate)
     (set_promises (promises st ++ [None]) st)).
Proof. done. Qed.

Lemma wait_for_register_cell name predicate st :
  promises (wait_for_register name predicate st).2
    !! (wait_for_register name predicate st).1.1 = Some None.
Proof. simpl. by apply list_lookup_middle. Qed.

(** The predicate returns [True]: the promise is settled with the arguments
    and [ListenerExit] is raised. *)
Lemma listener_True cell p args st :
  predicate_body p args = Returned (VBool true) →
  listener predicate_body cell (Some p) args st =
  (promise_set cell (Value (VTuple args)) st, Raised ListenerExit).
Proof. intros Hp. unfold listener. by rewrite Hp. Qed.

(** The predicate returns anything that is not [True]: the listener returns
    and nothing changes. *)
Lemma listener_not_True cell p args res st :
  predicate_body p args = Returned res →
  is_True res = false →
  listener predicate_body cell (Some p) args st = (st, Returned tt).
Proof. intros Hp Hres. unfold listener. by rewrite Hp, Hres. Qed.

(** The predicate faults: the fault is logged, the promise is settled with
    it and [ListenerExit] is raised. *)
Lemma listener_fault cell p args e st :
  predicate_body p args = Raised e →
  e ≠ ListenerExit →
  listener predicate_body cell (Some p) args st =
  (promise_set cell (Error e) (add_log (LogPredicate e) st), Raised ListenerExit).
Proof. intros Hp He. unfold listener. rewrite Hp. by destruct e. Qed.

(** A listener that returns stays registered. *)
Lemma _listener_wrapper_returns key func args kwargs st st1 :
  invoke handler_body predicate_body func args kwargs st = (st1, Returned tt) →
  _listener_wrapper handler_body predicate_body key func args kwargs st
  = (st1, Returned tt)
  ∧ temporary_listeners st1 = temporary_listeners st.
Proof.
  intros Hinv. unfold _listener_wrapper. rewrite Hinv. split; [done |].
  destruct (invoke_frame func args kwargs st) as (_ & Hr & _).
  rewrite Hinv in Hr. by injection Hr as _ _ Ht.
Qed.

(** What [wait_for] with a predicate does on one invocation of its
    listener: a result that is [True] settles the promise with the
    arguments and removes the listener; any other result, truthy or not,
    leaves the promise unset and the listener registered. *)
Lemma wait_for_listener_invocation key cell p args res st :
  predicate_body p args = Returned res →
  promises st !! cell = Some None →
  let l := WaitListener cell (Some p) in
  let st' := (_listener_wrapper handler_body predicate_body key l args ∅ st).1 in
  if is_True res
  then promise_wait cell st' = Some (Value (VTuple args))
       ∧ temporary_listeners st'
         = remove_from_multidict (temporary_listeners st) key l
  else promise_wait cell st' = None
       ∧ temporary_listeners st' = temporary_listeners st.
Proof.
  intros Hp Hcell l st'. subst st'.
  set (st0 := record_call (l, args, ∅) st).
  assert (promises st0 !! cell = Some None) as Hcell0 by done.
  destruct (is_True res) eqn:Hres.
  - assert (res = VBool true) as -> by (by destruct res as [| [] | | | | |]).
    assert (invoke handler_body predicate_body l args ∅ st
            = (promise_set cell (Value (VTuple args)) st0, Raised ListenerExit))
      as Hinv.
    { unfold invoke, l. rewrite decide_True by done. by apply listener_True. }
    rewrite (_listener_wrapper_raised _ _ _ _ _ _ _ Hinv). simpl.
    split; [| done]. unfold promise_wait. simpl.
    pose proof (promise_set_unset cell (Value (VTuple args)) st0 Hcell0) as Hw.
    unfold promise_wait in Hw. done.
  - assert (invoke handler_body predicate_body l args ∅ st = (st0, Returned tt))
      as Hinv.
    { unfold invoke, l. rewrite decide_True by done.
      by apply (listener_not_True _ _ _ res). }
    destruct (_listener_wrapper_returns key l args ∅ st st0 Hinv) as [-> Ht].
    simpl. split; [| done]. unfold promise_wait. simpl. by rewrite Hcell.
Qed.

(** ** Tasks that do not hold a given listener *)

Lemma listener_verdict_spec cell predicate args st :
  match listener_verdict predicate_body predicate args with
  | Some o =>
      ∃ st0, promises st0 = promises st
             ∧ registries st0 = registries st
             ∧ listener predicate_body cell predicate args st
               = (promise_set cell o st0, Raised ListenerExit)
  | None => listener predicate_body cell predicate args st = (st, Returned tt)
  end.
Proof.
  unfold listener_verdict, listener. destruct predicate as [p |].
  - destruct (predicate_body p args) as [res | e].
    + destruct (is_True res); [by exists st | done].
    + destruct e;
        first [ by exists st
              | eexists; split_and!; [| | reflexivity]; done ].
  - by exists st.
Qed.

Lemma invoke_other_cell func args kwargs c st :
  (∀ pr, func ≠ WaitListener c pr) →
  promises (invoke handler_body predicate_body func args kwargs st).1 !! c
  = promises st !! c.
Proof.
  intros Hne. unfold invoke. destruct func as [id | c' pr]; [done |].
  assert (c' ≠ c) as Hc by (intros ->; by apply (Hne pr)).
  destruct (decide (kwargs = ∅)); [| done].
  set (st1 := record_call (WaitListener c' pr, args, kwargs) st).
  pose proof (listener_verdict_spec c' pr args st1) as Hspec.
  destruct (listener_verdict predicate_body pr args) as [o |].
  - destruct Hspec as (st0 & Hp & _ & ->). simpl.
    rewrite promise_set_other by done. by rewrite Hp.
  - by rewrite Hspec.
Qed.

Lemma run_task_other_cell t c st :
  (∀ pr, task_callable t ≠ WaitListener c pr) →
  promises (run_task handler_body predicate_body t st).1 !! c = promises st !! c.
Proof.
  intros Hne.
  destruct t as [h args kwargs | h args kwargs | key h args kwargs];
    simpl in Hne; pose proof (invoke_other_cell h args kwargs c st Hne) as Hinv;
    simpl.
  - done.
  - rewrite _safety_wrapper_spec. simpl.
    by destruct (invoke handler_body predicate_body h args kwargs st) as [s1 [[] | e]].
  - unfold _listener_wrapper.
    by destruct (invoke handler_body predicate_body h args kwargs st)
      as [s1 [[] | []]].
Qed.

Lemma run_task_other_registrations t key l st :
  task_callable t ≠ l →
  registrations key l (temporary_listeners (run_task handler_body predicate_body t st).1)
  = registrations key l (temporary_listeners st).
Proof.
  intros Hne.
  destruct t as [h args kwargs | h args kwargs | key' h args kwargs];
    simpl in Hne; simpl.
  - destruct (invoke_frame h args kwargs st) as (_ & Hr & _).
    by injection Hr as _ _ ->.
  - destruct (_safety_wrapper_frame h args kwargs st) as (_ & Hr & _).
    by injection Hr as _ _ ->.
  - destruct (_listener_wrapper_frame key' h args kwargs st)
      as (_ & _ & _ & _ & _ & [-> | ->]); [done |].
    apply registrations_remove_other. congruence.
Qed.

Lemma run_tasks_app ts1 ts2 st :
  run_tasks handler_body predicate_body (ts1 ++ ts2) st =
  let r1 := run_tasks handler_body predicate_body ts1 st in
  let r2 := run_tasks handler_body predicate_body ts2 r1.1 in
  (r2.1, r1.2 ++ r2.2).
Proof.
  revert st. induction ts1 as [| t ts1 IH]; intros st; simpl.
  - by destruct (run_tasks handler_body predicate_body ts2 st).
  - destruct (run_task handler_body predicate_body t st) as [st1 r].
    rewrite IH. simpl.
    destruct (run_tasks handler_body predicate_body ts1 st1) as [st2 rs1]. simpl.
    by destruct (run_tasks handler_body predicate_body ts2 st2).
Qed.

(** Tasks whose callable is not the listener of cell [c] leave the cell and
    the registrations of that listener as they are. *)
Lemma run_tasks_other ts c st :
  Forall (fun t => ∀ pr, task_callable t ≠ WaitListener c pr) ts →
  let st' := (run_tasks handler_body predicate_body ts st).1 in
  promises st' !! c = promises st !! c
  ∧ ∀ key pr, registrations key (WaitListener c pr) (temporary_listeners st')
              = registrations key (WaitListener c pr) (temporary_listeners st).
Proof.
  intros Hall. revert st. induction Hall as [| t ts Ht Hts IH]; intros st.
  - done.
  - simpl.
    pose proof (run_task_other_cell t c st Ht) as Hcell.
    pose proof (fun key pr =>
                  run_task_other_registrations t key (WaitListener c pr) st (Ht pr))
      as Hreg.
    destruct (run_task handler_body predicate_body t st) as [st1 r].
    specialize (IH st1). simpl in *.
    destruct (run_tasks handler_body predicate_body ts st1) as [st2 rs].
    simpl in *. destruct IH as [IHc IHr]. split.
    + by rewrite IHc.
    + intros key pr. by rewrite IHr.
Qed.

Lemma allocated_not_new st func pr :
  allocated st func = true → func ≠ WaitListener (length (promises st)) pr.
Proof.
  intros Halloc ->. simpl in Halloc. apply bool_decide_eq_true in Halloc. lia.
Qed.

Lemma closures_allocated_held st func :
  closures_allocated st = true → func ∈ held_callables st →
  ∀ pr, func ≠ WaitListener (length (promises st)) pr.
Proof.
  unfold closures_allocated. rewrite forallb_forall.
  intros Hall Hin pr. apply allocated_not_new. apply Hall.
  by apply list_elem_of_In.
Qed.

(** The listener of a new [wait_for] call is not registered yet. *)
Lemma closures_allocated_new_listener st name predicate :
  closures_allocated st = true →
  WaitListener (length (promises st)) predicate
    ∉ getall name (temporary_listeners st).
Proof.
  intros Hwf Hin. apply elem_of_getall in Hin.
  eapply (closures_allocated_held st _ Hwf); [| done].
  unfold held_callables. rewrite !elem_of_app. right. right. left.
  apply list_elem_of_fmap. by exists (name, WaitListener (length (promises st)) predicate).
Qed.

(** ** From the registration to the end of the firing *)

(** The wrapper of a [wait_for] listener, run on a state in which the
    promise is not settled: the promise ends up as the verdict says, and
    the listener is deregistered exactly when there is a verdict. *)
Lemma listener_task_outcome key c predicate args st :
  promises st !! c = Some None →
  let l := WaitListener c predicate in
  let st' := (_listener_wrapper handler_body predicate_body key l args ∅ st).1 in
  promise_wait c st' = listener_verdict predicate_body predicate args
  ∧ temporary_listeners st' =
    match listener_verdict predicate_body predicate args with
    | Some _ => remove_from_multidict (temporary_listeners st) key l
    | None => temporary_listeners st
    end.
Proof.
  intros Hcell l st'. subst st'.
  set (st0 := record_call (l, args, ∅) st).
  pose proof (listener_verdict_spec c predicate args st0) as Hspec.
  assert (invoke handler_body predicate_body l args ∅ st
          = listener predicate_body c predicate args st0) as Hinv.
  { unfold invoke, l. by rewrite decide_True. }
  destruct (listener_verdict predicate_body predicate args) as [o |].
  - destruct Hspec as (st1 & Hp & Hr & Hl). rewrite Hl in Hinv.
    rewrite (_listener_wrapper_raised _ _ _ _ _ _ _ Hinv). simpl.
    split; [| done]. unfold promise_wait. simpl.
    assert (promises st1 !! c = Some None) as Hcell1 by (by rewrite Hp).
    pose proof (promise_set_unset c o st1 Hcell1) as Hw.
    by unfold promise_wait in Hw.
  - rewrite Hspec in Hinv.
    destruct (_listener_wrapper_returns key l args ∅ st st0 Hinv) as [-> Ht].
    simpl. split; [| done]. unfold promise_wait. simpl. by rewrite Hcell.
Qed.

(** After [wait_for] has registered its listener, a firing of the event
    whose keyword arguments are only the context source, followed by the
    run of all pending tasks in spawn order, ends with the wrapper of that
    listener, run on a state where its promise is still unset and the
    listener registered once. *)
Lemma dispatch_after_register name predicate args kwargs ctx st :
  closures_allocated st = true →
  resolve_context name kwargs = Returned (ctx, ∅) →
  let c := length (promises st) in
  let l := WaitListener c predicate in
  let st1 := (wait_for_register name predicate st).2 in
  ∃ s, promises s !! c = Some None
       ∧ registrations name l (temporary_listeners s) = 1
       ∧ dispatch handler_body predicate_body name args kwargs st1
         = (_listener_wrapper handler_body predicate_body name l args ∅ s).1.
Proof.
  intros Hwf Hres c l st1.
  set (others := task_manager st ++ hook_tasks args ∅ st
                   ++ handler_tasks name args ∅ st
                   ++ map (fun l' => ListenerTask name l' args ∅)
                        (getall name (temporary_listeners st))).
  assert (task_manager (fire_event name args kwargs st1).1
          = others ++ [ListenerTask name l args ∅]) as Htasks.
  { rewrite (fire_event_resolved _ _ _ _ _ _ Hres). simpl.
    unfold others, listener_tasks. simpl.
    rewrite getall_md_add, decide_True by done.
    rewrite map_app. simpl. by rewrite <- !app_assoc. }
  assert (Forall (fun t => ∀ pr, task_callable t ≠ WaitListener c pr) others)
    as Hothers.
  { apply Forall_forall. intros t Hin.
    apply (closures_allocated_held st _ Hwf).
    unfold held_callables. unfold others in Hin.
    rewrite !elem_of_app in Hin. rewrite !elem_of_app.
    unfold hook_tasks, handler_tasks in Hin.
    rewrite !list_elem_of_fmap in Hin. rewrite !list_elem_of_fmap.
    destruct Hin as [Hin | [(h & -> & Hin) | [(h & -> & Hin) | (h & -> & Hin)]]].
    - right. right. right. by exists t.
    - by left.
    - right. left. apply elem_of_getall in Hin. by exists (name, h).
    - right. right. left. apply elem_of_getall in Hin. by exists (name, h). }
  set (s0 := set_task_manager [] (fire_event name args kwargs st1).1).
  exists (run_tasks handler_body predicate_body others s0).1.
  destruct (run_tasks_other others c s0 Hothers) as [Hcell Hreg].
  split_and!.
  - rewrite Hcell. unfold s0.
    rewrite (fire_event_resolved _ _ _ _ _ _ Hres). simpl.
    by apply list_lookup_middle.
  - unfold l. rewrite Hreg. unfold s0.
    rewrite (fire_event_resolved _ _ _ _ _ _ Hres). simpl.
    rewrite registrations_md_add, decide_True by done.
    pose proof (closures_allocated_new_listener st name predicate Hwf) as Hnew.
    apply (proj2 (registrations_zero _ _ _)) in Hnew. fold c in Hnew. lia.
  - unfold dispatch.
    destruct (fire_event name args kwargs st1) as [sF r] eqn:HF.
    assert (r = Returned tt) as ->.
    { rewrite (fire_event_resolved _ _ _ _ _ _ Hres) in HF. congruence. }
    unfold run_pending. simpl in Htasks. rewrite Htasks.
    rewrite run_tasks_app. simpl.
    subst s0. simpl.
    by destruct (_listener_wrapper handler_body predicate_body name l args ∅
                   (run_tasks handler_body predicate_body others
                      (set_task_manager [] sF)).1).
Qed.

(** [wait_for], when one matching event is fired while the caller is
    suspended.  With a verdict the caller resumes with the settled outcome,
    on a state without the listener; without one it stays suspended. *)
Lemma wait_for_one_firing name predicate args kwargs ctx st :
  closures_allocated st = true →
  resolve_context name kwargs = Returned (ctx, ∅) →
  let c := length (promises st) in
  let l := WaitListener c predicate in
  let st2 := dispatch handler_body predicate_body name args kwargs
               (wait_for_register name predicate st).2 in
  promise_wait c st2 = listener_verdict predicate_body predicate args
  ∧ registrations name l (temporary_listeners st2)
    = match listener_verdict predicate_body predicate args with
      | Some _ => 0
      | None => 1
      end
  ∧ wait_for name predicate
      (fun _ _ s =>
         (dispatch handler_body predicate_body name args kwargs s, None)) st
    = match listener_verdict predicate_body predicate args with
      | Some o => Some (wait_for_resume name l (Returned o) st2)
      | None => None
      end.
Proof.
  intros Hwf Hres c l st2.
  pose proof (dispatch_after_register name predicate args kwargs ctx st Hwf Hres)
    as Hd.
  cbv zeta in Hd. destruct Hd as (s & Hcell & Hreg & Hdisp).
  pose proof (listener_task_outcome name (length (promises st)) predicate args s
                Hcell) as Ho.
  cbv zeta in Ho. destruct Ho as [Hw Ht]. rewrite <- Hdisp in Hw, Ht.
  subst c l st2. split_and!; [done | |].
  - rewrite Ht. destruct (listener_verdict predicate_body predicate args).
    + rewrite registrations_remove. by rewrite Hreg.
    + done.
  - unfold wait_for. rewrite wait_for_register_spec. cbv beta iota zeta.
    rewrite wait_for_register_spec in Hw. simpl in Hw. rewrite Hw.
    by destruct (listener_verdict predicate_body predicate args).
Qed.

(** ** The calls of a run *)


Lemma run_task_frame t st :
  let st' := (run_task handler_body predicate_body t st).1 in
  task_manager st' = task_manager st
  ∧ event_hooks st' = event_hooks st
  ∧ event_listeners st' = event_listeners st
  ∧ ∀ entry, entry ∈ temporary_listeners st' → entry ∈ temporary_listeners st.
Proof.
  destruct t as [h args kwargs | h args kwargs | key h args kwargs]; simpl.
  - destruct (invoke_frame h args kwargs st) as (Htm & Hr & _).
    injection Hr as Hh He Htl. by rewrite Htl.
  - destruct (_safety_wrapper_frame h args kwargs st) as (Htm & Hr & _).
    injection Hr as Hh He Htl. by rewrite Htl.
  - destruct (_listener_wrapper_frame key h args kwargs st)
      as (Htm & Hh & He & _ & _ & Htl).
    split_and!; try done. intros entry.
    destruct Htl as [-> | ->]; [done |]. apply elem_of_remove_from_multidict.
Qed.




(** ** wait_for *)


(** C1, on the code.  A [wait_for] call without a predicate that is resolved
    by a firing of its event does not return the arguments: its listener
    settles the promise with [Value(None)], and the caller, resumed, raises
    [TypeError] on [len(None)], whatever the arguments of the firing. *)
Theorem wait_for_no_predicate_raises name args kwargs ctx st :
  closures_allocated st = true →
  resolve_context name kwargs = Returned (ctx, ∅) →
  ∃ st2,
    promise_wait (length (promises st)) st2 = Some (Value VNone)
    ∧ wait_for name None
        (fun _ _ s =>
           (dispatch handler_body predicate_body name args kwargs s, None)) st
      = Some (st2, Raised TypeError).
Proof.
  intros Hwf Hres.
  pose proof (wait_for_one_firing name None args kwargs ctx st Hwf Hres) as H.
  cbv zeta in H. destruct H as (Hw & _ & ->).
  eexists. split; [exact Hw | done].
Qed.

(** C2, on the code.  When the wait of [wait_for] is interrupted by an
    exception, the exception reaches the caller, but the listener stays in
    the temporary registry ([remove_listener_early] works on
    [event_listeners]): the next firing of the event spawns a wrapper for
    it. *)
Theorem wait_for_interrupted_keeps_listener name predicate e st :
  let l := WaitListener (length (promises st)) predicate in
  ∃ st2,
    wait_for name predicate (fun _ _ s => (s, Some e)) st = Some (st2, Raised e)
    ∧ temporary_listeners st2 = md_add name l (temporary_listeners st)
    ∧ l ∈ getall name (temporary_listeners st2)
    ∧ ∀ args shard_id,
        ListenerTask name l args ∅
          ∈ spawned_by st2
              (fire_event name args {[ "gateway" := VGateway shard_id ]} st2).1.
Proof.
  intros l. unfold wait_for. rewrite wait_for_register_spec. fold l.
  cbv beta iota zeta. unfold wait_for_resume.
  eexists. split; [reflexivity |].
  assert (l ∈ getall name (md_add name l (temporary_listeners st))) as Hin.
  { rewrite getall_md_add, decide_True by done. apply elem_of_app. right. by left. }
  split_and!; [done | done |].
  intros args shard_id.
  rewrite (fire_event_spawned _ _ _ _ _ _ (resolve_context_gateway name shard_id)).
  rewrite !elem_of_app. right. right. unfold listener_tasks.
  apply list_elem_of_fmap. exists l. split; [done |]. exact Hin.
Qed.


(** C6, on the code.  A predicate that returns a truthy result other than
    [True]: after the firing the promise is still unset, the caller is
    still suspended and the listener still registered, as for a falsy
    result; the listener compares the result with [True] by identity. *)
Theorem wait_for_truthy_result_keeps_waiting name p args kwargs ctx res st :
  predicate_body p args = Returned res →
  truthy res = true →
  is_True res = false →
  closures_allocated st = true →
  resolve_context name kwargs = Returned (ctx, ∅) →
  let l := WaitListener (length (promises st)) (Some p) in
  let st2 := dispatch handler_body predicate_body name args kwargs
               (wait_for_register name (Some p) st).2 in
  wait_for name (Some p)
    (fun _ _ s =>
       (dispatch handler_body predicate_body name args kwargs s, None)) st
  = None
  ∧ promise_wait (length (promises st)) st2 = None
  ∧ registrations name l (temporary_listeners st2) = 1.
Proof.
  intros Hp _ Hres Hwf Hctx l st2.
  pose proof (wait_for_one_firing name (Some p) args kwargs ctx st Hwf Hctx) as H.
  cbv zeta in H. destruct H as (Hw & Hreg & ->).
  assert (listener_verdict predicate_body (Some p) args = None) as Hv.
  { unfold listener_verdict. by rewrite Hp, Hres. }
  rewrite Hv in Hw, Hreg. by rewrite Hv.
Qed.

(** ** The closures stay allocated *)

Lemma closures_allocated_new : closures_allocated new_manager = true.
Proof. reflexivity. Qed.

Lemma allocated_mono st st' func :
  length (promises st) ≤ length (promises st') →
  allocated st func = true → allocated st' func = true.
Proof.
  intros Hle. destruct func as [id | c pr]; simpl; [done |].
  rewrite !bool_decide_eq_true. lia.
Qed.

Lemma closures_allocated_intro st :
  (∀ func, func ∈ held_callables st → allocated st func = true) →
  closures_allocated st = true.
Proof.
  intros H. unfold closures_allocated. apply forallb_forall.
  intros func Hin. apply H. by apply list_elem_of_In.
Qed.

Lemma closures_allocated_elim st func :
  closures_allocated st = true → func ∈ held_callables st →
  allocated st func = true.
Proof.
  unfold closures_allocated. rewrite forallb_forall.
  intros H Hin. apply H. by apply list_elem_of_In.
Qed.


(** A firing keeps the invariant: the tasks it spawns invoke callables of
    the registries. *)
Lemma closures_allocated_fire_event name args kwargs st :
  closures_allocated st = true →
  closures_allocated (fire_event name args kwargs st).1 = true.
Proof.
  intros Hwf.
  destruct (resolve_context name kwargs) as [[ctx kwargs'] | e] eqn:Hres.
  - rewrite (fire_event_resolved _ _ _ _ _ _ Hres). simpl.
    apply closures_allocated_intro. intros func Hin.
    apply (allocated_mono st); [done |]. apply closures_allocated_elim; [done |].
    unfold held_callables in *. simpl in Hin.
    rewrite !map_app in Hin. rewrite !elem_of_app in Hin. rewrite !elem_of_app.
    unfold hook_tasks, handler_tasks, listener_tasks in Hin.
    rewrite !map_map in Hin. simpl in Hin. rewrite !map_id in Hin.
    destruct Hin as [? | [? | [? | [? | [? | [Hin | Hin]]]]]]; auto 10.
    + right. left. apply elem_of_getall in Hin.
      apply list_elem_of_fmap. by exists (name, func).
    + right. right. left. apply elem_of_getall in Hin.
      apply list_elem_of_fmap. by exists (name, func).
  - unfold fire_event. by rewrite Hres.
Qed.

(** Running a task keeps the invariant: no promise is allocated, and the
    registries can only lose entries. *)
Lemma closures_allocated_run_task t st :
  closures_allocated st = true →
  closures_allocated (run_task handler_body predicate_body t st).1 = true.
Proof.
  intros Hwf.
  assert (∀ st', task_manager st' = task_manager st →
                 event_hooks st' = event_hooks st →
                 event_listeners st' = event_listeners st →
                 (∀ entry, entry ∈ temporary_listeners st' →
                           entry ∈ temporary_listeners st) →
                 length (promises st') = length (promises st) →
                 closures_allocated st' = true) as Hkeep.
  { intros st' Htm Hh He Htl Hlen. apply closures_allocated_intro.
    intros func Hin. apply (allocated_mono st); [lia |].
    apply closures_allocated_elim; [done |].
    unfold held_callables in *. rewrite Htm, Hh, He in Hin.
    rewrite !elem_of_app in Hin. rewrite !elem_of_app.
    destruct Hin as [? | [? | [Hin | ?]]]; auto.
    right. right. left. apply list_elem_of_fmap in Hin as (entry & -> & Hin).
    apply list_elem_of_fmap. exists entry. split; [done |]. by apply Htl. }
  destruct t as [h args kwargs | h args kwargs | key h args kwargs]; simpl.
  - destruct (invoke_frame h args kwargs st) as (Htm & Hr & _ & Hlen).
    injection Hr as Hh He Htl. apply Hkeep; try done. by rewrite Htl.
  - destruct (invoke_frame h args kwargs st) as (Htm & Hr & _ & Hlen).
    injection Hr as Hh He Htl. rewrite _safety_wrapper_spec. simpl.
    destruct (invoke handler_body predicate_body h args kwargs st) as [s1 [[] | e]];
      simpl in *; apply Hkeep; simpl; try done; by rewrite Htl.
  - destruct (_listener_wrapper_frame key h args kwargs st)
      as (Htm & Hh & He & _ & Hlen & Htl).
    apply Hkeep; try done. intros entry.
    destruct Htl as [-> | ->]; [done |]. apply elem_of_remove_from_multidict.
Qed.

End EventManagerFacts.

(** * Facts about the curio websocket wrapper *)

Module CurioWebsocketWrapperFacts.
Import CurioWebsocketWrapper.

Lemma handle_Poll_spec w :
  executed (handle Poll w) = executed w ++ take 1 (_send_queue w)
  ∧ _send_queue (handle Poll w) = drop 1 (_send_queue w).
Proof.
  unfold handle. destruct (_send_queue w) as [| a rest] eqn:Hq.
  - rewrite Hq. simpl. by rewrite app_nil_r.
  - destruct a; simpl; by rewrite drop_0.
Qed.

Lemma handle_Other_spec id w :
  executed (handle (Other id) w) = executed w
  ∧ _send_queue (handle (Other id) w) = _send_queue w.
Proof. done. Qed.

Lemma polls_cons_Poll events : polls (Poll :: events) = S (polls events).
Proof. unfold polls. by rewrite filter_cons_True. Qed.

Lemma polls_cons_Other id events : polls (Other id :: events) = polls events.
Proof. unfold polls. by rewrite filter_cons_False. Qed.

Lemma polls_ticks n : polls (ticks n) = n.
Proof.
  induction n as [| n IH]; [done |].
  unfold ticks in *. simpl. by rewrite polls_cons_Poll, IH.
Qed.

(** After any events, the thunks executed are the first of the queue, as
    many as there were poll ticks (or all of them, if fewer were queued),
    in queue order; the others are still queued. *)
Lemma handle_all_spec events w :
  executed (handle_all events w)
    = executed w ++ take (polls events) (_send_queue w)
  ∧ _send_queue (handle_all events w) = drop (polls events) (_send_queue w).
Proof.
  unfold handle_all. revert w.
  induction events as [| event events IH]; intros w; cbn [foldl].
  - simpl. by rewrite app_nil_r, drop_0.
  - destruct (IH (handle event w)) as [IHe IHq]. rewrite IHe, IHq.
    destruct event as [| id].
    + destruct (handle_Poll_spec w) as [-> ->]. rewrite polls_cons_Poll.
      rewrite <- app_assoc. rewrite drop_drop. split; [| done].
      f_equal. destruct (_send_queue w) as [| a rest]; simpl.
      * by rewrite take_nil.
      * by rewrite drop_0.
    + destruct (handle_Other_spec id w) as [-> ->]. by rewrite polls_cons_Other.
Qed.

(** C7. One poll tick executes the head of the outbound queue, if there is
    one, and nothing else: a tick on an empty queue executes nothing, and
    the other events execute nothing.  Over any sequence of events the
    thunks are executed in queue order, one per tick.  Three thunks [a],
    [b], [c] queued in this order on a new wrapper: after one tick [a] has
    been executed, after two ticks [a] then [b], after three ticks [a],
    [b], [c]. *)
Theorem poll_ticks_fifo :
  (∀ w, executed (handle Poll w) = executed w ++ take 1 (_send_queue w)
        ∧ _send_queue (handle Poll w) = drop 1 (_send_queue w))
  ∧ (∀ q cancelled task ws done,
       handle Poll (mkWrapper [] q cancelled task ws done)
       = mkWrapper [] q cancelled task ws done)
  ∧ (∀ id w, executed (handle (Other id) w) = executed w
             ∧ _send_queue (handle (Other id) w) = _send_queue w)
  ∧ (∀ events w,
       executed (websocket_handler events w)
         = executed w ++ take (polls events) (_send_queue w)
       ∧ _send_queue (websocket_handler events w)
         = drop (polls events) (_send_queue w))
  ∧ (∀ a b c,
       let w := enqueue c (enqueue b (enqueue a new_wrapper)) in
       executed (handle_all (ticks 1) w) = [a]
       ∧ executed (handle_all (ticks 2) w) = [a; b]
       ∧ executed (handle_all (ticks 3) w) = [a; b; c]
       ∧ _send_queue (handle_all (ticks 3) w) = []).
Proof.
  split_and!.
  - apply handle_Poll_spec.
  - done.
  - apply handle_Other_spec.
  - intros events w. unfold websocket_handler. simpl. apply handle_all_spec.
  - intros a b c w.
    pose proof (fun n => handle_all_spec (ticks n) w) as H.
    split_and!.
    + destruct (H 1) as [-> _]. by rewrite polls_ticks.
    + destruct (H 2) as [-> _]. by rewrite polls_ticks.
    + destruct (H 3) as [-> _]. by rewrite polls_ticks.
    + destruct (H 3) as [_ ->]. by rewrite polls_ticks.
Qed.

End CurioWebsocketWrapperFacts.

(** * Concrete runs *)

Section Runs.

Local Abbreviation run_wait_for name predicate suspended st :=
  (snd <$> wait_for name predicate suspended st).

(** [wait_for("X")] without a predicate, then ["X"] fired with [(42,)], and
    with [(1, 2)]: the caller gets [TypeError] both times. *)
Example wait_for_no_predicate_runs :
  run_wait_for "X" None (one_firing "X" [VInt 42]) new_manager
  = Some (Raised TypeError)
  ∧ run_wait_for "X" None (one_firing "X" [VInt 1; VInt 2]) new_manager
    = Some (Raised TypeError).
Proof. split; vm_compute; reflexivity. Qed.

(** With a predicate that returns [True] the single argument comes back
    unwrapped and two arguments come back as a tuple. *)
Example wait_for_True_predicate_runs :
  run_wait_for "X" (Some 0) (one_firing "X" [VInt 42]) new_manager
  = Some (Returned (VInt 42))
  ∧ run_wait_for "X" (Some 0) (one_firing "X" [VInt 1; VInt 2]) new_manager
    = Some (Returned (VTuple [VInt 1; VInt 2])).
Proof. split; vm_compute; reflexivity. Qed.

(** A predicate that returns [False] on the first firing and [True] on the
    second: the caller is still suspended after the first firing and
    resumes after the second. *)
Example wait_for_second_firing_runs :
  run_wait_for "X" (Some 3) (one_firing "X" [VInt 1]) sample_manager = None
  ∧ run_wait_for "X" (Some 3) (two_firings "X" [VInt 1] [VInt 2]) sample_manager
    = Some (Returned (VInt 2)).
Proof. split; vm_compute; reflexivity. Qed.

(** A predicate that returns [1]: the caller stays suspended and the
    listener registered. *)
Example wait_for_truthy_predicate_runs :
  run_wait_for "X" (Some 1) (one_firing "X" [VInt 42]) new_manager = None
  ∧ temporary_listeners
      (dispatch sample_handler sample_predicate "X" [VInt 42] gateway_kwargs
         (wait_for_register "X" (Some 1) new_manager).2)
    = [("X", WaitListener 0 (Some 1))].
Proof. split; vm_compute; reflexivity. Qed.

(** An interrupted wait: the exception comes back and the listener is
    still in the temporary registry. *)
Example wait_for_interrupted_runs :
  (fun r => (temporary_listeners r.1, r.2))
    <$> wait_for "X" (Some 0) (fun _ _ s => (s, Some (Fault 9))) new_manager
  = Some ([("X", WaitListener 0 (Some 0))], Raised (Fault 9)).
Proof. vm_compute. reflexivity. Qed.

(** C9, as stated, fails for hooks: removing a hook that is not registered
    raises [KeyError]. *)
Lemma remove_event_hook_absent_raises :
  (UserFn 0 ∉ event_hooks new_manager)
  ∧ (remove_event_hook (UserFn 0) new_manager).2
    = Raised (KeyError (KCallable (UserFn 0)))
  ∧ (remove_event_hook (UserFn 0) new_manager).2 ≠ Returned tt.
Proof. split_and!; [compute_done | reflexivity | discriminate]. Qed.

Lemma removal_of_absent_entry_witness :
  remove_event "E" (UserFn 9) sample_manager = sample_manager
  ∧ set_temporary_listeners
      (remove_from_multidict (temporary_listeners sample_manager) "E" (UserFn 9))
      sample_manager = sample_manager
  ∧ remove_event_hook (UserFn 9) sample_manager
    = (sample_manager, Raised (KeyError (KCallable (UserFn 9)))).
Proof.
  destruct (removal_of_absent_entry "E" (UserFn 9) sample_manager)
    as (Hevent & Hlistener & Hhook).
  split_and!; [apply Hevent | apply Hlistener | apply Hhook]; compute_done.
Defined.

Lemma fire_event_without_context_witness :
  fire_event "E" [VInt 42] {[ "flag" := VBool true ]} sample_manager
  = (sample_manager, Raised (KeyError (KStr "gateway")))
  ∧ spawned_by sample_manager
      (fire_event "E" [VInt 42] {[ "flag" := VBool true ]} sample_manager).1 = []
  ∧ registries
      (fire_event "E" [VInt 42] {[ "flag" := VBool true ]} sample_manager).1
    = registries sample_manager.
Proof.
  apply (fire_event_without_context "E" [VInt 42] {[ "flag" := VBool true ]}
           sample_manager); reflexivity.
Defined.

Lemma wait_for_no_predicate_raises_witness :
  ∃ st2,
    promise_wait 0 st2 = Some (Value VNone)
    ∧ wait_for "X" None
        (fun _ _ s =>
           (dispatch sample_handler sample_predicate "X" [VInt 42]
              gateway_kwargs s, None)) sample_manager
      = Some (st2, Raised TypeError).
Proof.
  apply (wait_for_no_predicate_raises sample_handler sample_predicate
           "X" [VInt 42] gateway_kwargs (0%Z, "X") sample_manager);
    reflexivity.
Defined.


Lemma wait_for_truthy_result_keeps_waiting_witness :
  wait_for "X" (Some 1)
    (fun _ _ s =>
       (dispatch sample_handler sample_predicate "X" [VInt 42]
          gateway_kwargs s, None)) sample_manager
  = None
  ∧ promise_wait 0
      (dispatch sample_handler sample_predicate "X" [VInt 42] gateway_kwargs
         (wait_for_register "X" (Some 1) sample_manager).2) = None
  ∧ registrations "X" (WaitListener 0 (Some 1))
      (temporary_listeners
         (dispatch sample_handler sample_predicate "X" [VInt 42] gateway_kwargs
            (wait_for_register "X" (Some 1) sample_manager).2)) = 1.
Proof.
  apply (wait_for_truthy_result_keeps_waiting sample_handler sample_predicate
           "X" 1 [VInt 42] gateway_kwargs (0%Z, "X") (VInt 1) sample_manager);
    reflexivity.
Defined.

End Runs.

(** * More about the event manager *)

Section EventManagerMore.

Variable iscoroutinefunction : nat -> bool.
Variable func_events : nat -> option (list string).
Variable handler_body : nat -> list value -> kwargs_t -> completion unit.
Variable predicate_body : nat -> list value -> completion value.

Implicit Types (st : state) (func l : callable) (args : list value)
  (kwargs : kwargs_t) (key name : string).

(** ** Registration *)

Lemma register_all_spec func evs st :
  let st' := register_all func evs st in
  task_manager st' = task_manager st
  ∧ event_hooks st' = event_hooks st
  ∧ temporary_listeners st' = temporary_listeners st
  ∧ promises st' = promises st
  ∧ calls st' = calls st
  ∧ event_listeners st'
    = event_listeners st ++ map (fun ev_name => (ev_name, func)) evs.
Proof.
  revert st. induction evs as [| ev evs IH]; intros st.
  - simpl. by rewrite app_nil_r.
  - cbn [register_all].
    match goal with
    | |- context [register_all func evs ?s] =>
        destruct (IH s) as (-> & -> & -> & -> & -> & ->)
    end.
    simpl. unfold md_add. by rewrite <- app_assoc.
Qed.

Lemma getall_registered ev func evs :
  getall ev (map (fun ev_name => (ev_name, func)) evs)
  = replicate (length (filter (fun ev_name => ev_name = ev) evs)) func.
Proof.
  induction evs as [| ev' evs IH]; simpl; [done |].
  destruct (decide (ev' = ev)) as [-> | Hne].
  - rewrite filter_cons_True by done. simpl. by rewrite IH.
  - by rewrite filter_cons_False.
Qed.

(** X2. [add_event] without a name reads the [events] attribute of the
    function.  A coroutine function without the attribute makes the call
    raise [AttributeError], and nothing is registered.  With the attribute,
    the function is registered under every name of [events], once per
    occurrence of the name there: under each event the handlers are the
    former ones followed by as many copies of the function; an empty
    [events] registers nothing and the call still returns normally. *)
Theorem add_event_from_events id st :
  iscoroutinefunction id = true →
  match func_events id with
  | None =>
      add_event iscoroutinefunction func_events (UserFn id) None st
      = (st, Raised AttributeError)
  | Some evs =>
      let st' := (add_event iscoroutinefunction func_events (UserFn id) None st).1 in
      (add_event iscoroutinefunction func_events (UserFn id) None st).2
        = Returned tt
      ∧ (∀ ev, getall ev (event_listeners st')
               = getall ev (event_listeners st)
                   ++ replicate
                        (length (filter (fun ev_name => ev_name = ev) evs))
                        (UserFn id))
      ∧ (evs = [] → event_listeners st' = event_listeners st)
      ∧ event_hooks st' = event_hooks st
      ∧ temporary_listeners st' = temporary_listeners st
  end.
Proof.
  intros Hyes. unfold add_event. simpl. rewrite Hyes. simpl.
  destruct (func_events id) as [evs |]; [| done]. simpl.
  destruct (register_all_spec (UserFn id) evs st)
    as (_ & Hh & Ht & _ & _ & He).
  split_and!; try done.
  - intros ev. rewrite He, getall_app. by rewrite getall_registered.
  - intros Hnil. rewrite He, Hnil. simpl. by rewrite app_nil_r.
Qed.

(** ** Hooks *)


(** X4. A hook that was not in the set, added and removed again: the
    removal raises nothing and the set of hooks is the former one; a second
    removal raises [KeyError]. *)
Theorem add_then_remove_event_hook h st :
  h ∉ event_hooks st →
  let st1 := add_event_hook h st in
  let st2 := (remove_event_hook h st1).1 in
  (remove_event_hook h st1).2 = Returned tt
  ∧ event_hooks st2 = event_hooks st
  ∧ event_listeners st2 = event_listeners st
  ∧ temporary_listeners st2 = temporary_listeners st
  ∧ remove_event_hook h st2 = (st2, Raised (KeyError (KCallable h))).
Proof.
  intros Hnot st1 st2.
  assert (h ∈ event_hooks st1) as Hin.
  { simpl. apply elem_of_union. right. by apply elem_of_singleton. }
  assert (remove_event_hook h st1
          = (set_event_hooks (event_hooks st1 ∖ {[h]}) st1, Returned tt)) as Hrem.
  { unfold remove_event_hook. by rewrite decide_True. }
  subst st2. rewrite Hrem. simpl.
  assert ((event_hooks st ∪ {[h]}) ∖ {[h]} = event_hooks st) as Hset.
  { apply set_eq. intros x.
    rewrite elem_of_difference, elem_of_union, elem_of_singleton.
    split; [intros [[? | ->] ?]; done |].
    intros Hx. split; [by left | by intros ->]. }
  split_and!; try done.
  unfold remove_event_hook. simpl. rewrite Hset. by rewrite decide_False.
Qed.

(** ** The context of a firing and the keyword arguments *)

(** X5. The keyword arguments the handlers get.  A firing takes [ctx] out
    of the keyword arguments, or [gateway] when there is no [ctx]; every
    other keyword argument is passed on unchanged, and so is [gateway] when
    a [ctx] came with it.  Every task spawned by the firing carries the
    positional arguments of the firing and these keyword arguments. *)
Theorem fire_event_keyword_arguments name args kwargs ctx kwargs' st :
  resolve_context name kwargs = Returned (ctx, kwargs') →
  kwargs' !! "ctx" = None
  ∧ (kwargs !! "ctx" = None → kwargs' !! "gateway" = None)
  ∧ (is_Some (kwargs !! "ctx") → kwargs' !! "gateway" = kwargs !! "gateway")
  ∧ (∀ k, k ≠ "ctx" → k ≠ "gateway" → kwargs' !! k = kwargs !! k)
  ∧ ∀ t, t ∈ spawned_by st (fire_event name args kwargs st).1 →
         (task_invocation t).1.2 = args ∧ (task_invocation t).2 = kwargs'.
Proof.
  intros Hres.
  assert (kwargs' = delete "ctx" kwargs ∧ is_Some (kwargs !! "ctx")
          ∨ kwargs' = delete "gateway" kwargs ∧ kwargs !! "ctx" = None) as Hk.
  { unfold resolve_context in Hres.
    destruct (kwargs !! "ctx") as [v |] eqn:Hctx.
    - left. destruct v; try discriminate. injection Hres as _ <-. eauto.
    - right. destruct (kwargs !! "gateway") as [v |]; [| discriminate].
      destruct v; try discriminate. by injection Hres as _ <-. }
  split_and!.
  - destruct Hk as [[-> _] | [-> Hctx]].
    + apply lookup_delete_eq.
    + by rewrite lookup_delete_ne.
  - intros Hctx. destruct Hk as [[_ [v Hv]] | [-> _]]; [congruence |].
    apply lookup_delete_eq.
  - intros [v Hv]. destruct Hk as [[-> _] | [_ Hctx]]; [| congruence].
    by rewrite lookup_delete_ne.
  - intros k Hk1 Hk2. destruct Hk as [[-> _] | [-> _]];
      by rewrite lookup_delete_ne.
  - intros t Hin. rewrite (fire_event_spawned _ _ _ _ _ _ Hres) in Hin.
    rewrite !elem_of_app in Hin.
    unfold hook_tasks, handler_tasks, listener_tasks in Hin.
    rewrite !list_elem_of_fmap in Hin.
    by destruct Hin as [(h & -> & _) | [(h & -> & _) | (h & -> & _)]].
Qed.

(** ** Temporary listeners that return *)

(** The wrapper of a user listener that returns: no registry changes and
    nothing is logged. *)
Lemma _listener_wrapper_user_returns key id args kwargs st :
  handler_body id args kwargs = Returned tt →
  let st' := (_listener_wrapper handler_body predicate_body key (UserFn id)
                args kwargs st).1 in
  registries st' = registries st
  ∧ log st' = log st
  ∧ promises st' = promises st
  ∧ calls st' = calls st ++ [(UserFn id, args, kwargs)].
Proof.
  intros Hbody st'. subst st'. unfold _listener_wrapper, invoke.
  rewrite Hbody. done.
Qed.

Lemma registries_temporary_listeners st st' :
  registries st' = registries st →
  temporary_listeners st' = temporary_listeners st.
Proof. intros H. exact (f_equal snd H). Qed.

Lemma run_task_returning_listener t key id st :
  (∀ a k, handler_body id a k = Returned tt) →
  registrations key (UserFn id)
    (temporary_listeners (run_task handler_body predicate_body t st).1)
  = registrations key (UserFn id) (temporary_listeners st).
Proof.
  intros Hbody.
  destruct (decide (task_callable t = UserFn id)) as [Heq | Hne];
    [| by apply run_task_other_registrations].
  f_equal. apply registries_temporary_listeners.
  destruct t as [h args kwargs | h args kwargs | key' h args kwargs];
    simpl in Heq; subst h; cbn [run_task].
  - by destruct (invoke_frame handler_body predicate_body (UserFn id) args kwargs st)
      as (_ & Hr & _).
  - by destruct (_safety_wrapper_frame handler_body predicate_body
                   (UserFn id) args kwargs st) as (_ & Hr & _).
  - by destruct (_listener_wrapper_user_returns key' id args kwargs st
                   (Hbody args kwargs)) as (Hr & _).
Qed.

(** ** More about wait_for *)

(** The tasks a firing runs before the wrapper of a newly registered
    [wait_for] listener: none of them holds that listener. *)
Lemma pending_tasks_hold_no_new_listener name args kwargs st :
  closures_allocated st = true →
  Forall (fun t => ∀ pr, task_callable t ≠ WaitListener (length (promises st)) pr)
    (task_manager st ++ hook_tasks args kwargs st
       ++ handler_tasks name args kwargs st
       ++ map (fun l' => ListenerTask name l' args kwargs)
            (getall name (temporary_listeners st))).
Proof.
  intros Hwf. apply Forall_forall. intros t Hin.
  apply (closures_allocated_held st _ Hwf).
  unfold held_callables. rewrite !elem_of_app in Hin. rewrite !elem_of_app.
  unfold hook_tasks, handler_tasks in Hin.
  rewrite !list_elem_of_fmap in Hin. rewrite !list_elem_of_fmap.
  destruct Hin as [Hin | [(h & -> & Hin) | [(h & -> & Hin) | (h & -> & Hin)]]].
  - right. right. right. by exists t.
  - by left.
  - right. left. apply elem_of_getall in Hin. by exists (name, h).
  - right. right. left. apply elem_of_getall in Hin. by exists (name, h).
Qed.


(** X10. A firing of another event does not touch a pending [wait_for]:
    whatever its arguments, and whether or not its context resolves, the
    promise stays unset, the caller stays suspended and the listener stays
    registered. *)
Theorem wait_for_other_event name name' predicate args kwargs st :
  closures_allocated st = true →
  name' ≠ name →
  let l := WaitListener (length (promises st)) predicate in
  let st2 := dispatch handler_body predicate_body name' args kwargs
               (wait_for_register name predicate st).2 in
  wait_for name predicate
    (fun _ _ s =>
       (dispatch handler_body predicate_body name' args kwargs s, None)) st
  = None
  ∧ promise_wait (length (promises st)) st2 = None
  ∧ registrations name l (temporary_listeners st2) = 1.
Proof.
  intros Hwf Hne l st2.
  set (c := length (promises st)).
  set (st1 := (wait_for_register name predicate st).2).
  assert (registrations name l (temporary_listeners st1) = 1) as Hreg1.
  { simpl. rewrite registrations_md_add, decide_True by done.
    pose proof (closures_allocated_new_listener st name predicate Hwf) as Hnew.
    apply (proj2 (registrations_zero _ _ _)) in Hnew.
    unfold l. by rewrite Hnew. }
  assert (promises st2 !! c = Some None
          ∧ registrations name l (temporary_listeners st2) = 1) as [Hcell Hreg].
  { unfold st2, dispatch. fold st1.
    destruct (resolve_context name' kwargs) as [[ctx kwargs1] | e] eqn:Hres.
    - rewrite (fire_event_resolved _ _ _ _ _ _ Hres). unfold run_pending.
      cbn [task_manager].
      match goal with
      | |- context [run_tasks _ _ ?ts ?s] => set (s0 := s); set (tasks := ts)
      end.
      assert (Forall (fun t => ∀ pr, task_callable t ≠ WaitListener c pr) tasks)
        as Hothers.
      { pose proof (pending_tasks_hold_no_new_listener name' args kwargs1 st Hwf)
          as Hold.
        unfold tasks, listener_tasks. simpl.
        rewrite getall_md_add, decide_False by done. by rewrite app_nil_r. }
      destruct (run_tasks_other handler_body predicate_body tasks c s0 Hothers)
        as [Hc Hr].
      split.
      + rewrite Hc. simpl. by apply list_lookup_middle.
      + unfold l. rewrite Hr. exact Hreg1.
    - unfold fire_event. rewrite Hres. split; [| exact Hreg1].
      simpl. by apply list_lookup_middle. }
  assert (promise_wait c st2 = None) as Hwait.
  { unfold promise_wait. by rewrite Hcell. }
  split_and!; [| done | done].
  unfold wait_for. rewrite wait_for_register_spec. cbv beta iota zeta.
  unfold c, st2 in Hwait. rewrite wait_for_register_spec in Hwait.
  cbn [snd] in Hwait. by rewrite Hwait.
Qed.



End EventManagerMore.

(** * More about the curio websocket wrapper *)

Module CurioWebsocketWrapperMore.
Import CurioWebsocketWrapper CurioWebsocketWrapperFacts.

Lemma non_polls_cons_Poll events : non_polls (Poll :: events) = non_polls events.
Proof. unfold non_polls. by rewrite filter_cons_False by (intros H; by apply H). Qed.

Lemma non_polls_cons_Other id events :
  non_polls (Other id :: events) = Other id :: non_polls events.
Proof. unfold non_polls. by rewrite filter_cons_True. Qed.

Lemma handle_all_cons event events w :
  handle_all (event :: events) w = handle_all events (handle event w).
Proof. done. Qed.

Lemma __aiter___items events rest :
  __aiter__ (map Item events ++ rest)
  = (events ++ (__aiter__ rest).1, (__aiter__ rest).2).
Proof.
  induction events as [| event events IH]; simpl.
  - by destruct (__aiter__ rest).
  - rewrite IH. done.
Qed.

(** What the loop puts on the inbound queue. *)
Lemma handle_all_queue events w :
  _queue (handle_all events w) = _queue w ++ map Item (non_polls events).
Proof.
  revert w. induction events as [| event events IH]; intros w.
  - simpl. by rewrite app_nil_r.
  - rewrite handle_all_cons, IH. destruct event as [| id].
    + rewrite non_polls_cons_Poll. f_equal.
      unfold handle. destruct (_send_queue w) as [| [] ?]; done.
    + rewrite non_polls_cons_Other. simpl. by rewrite <- app_assoc.
Qed.

(** X12. Inbound events.  The handler forwards every event that is not a
    poll tick to the inbound queue, in the order received, and the sentinel
    once the websocket has ended.  Iterating over a wrapper that was opened
    anew yields exactly these events, in order, and never a poll tick; the
    iteration is over when the handler has ended and waits for more while
    it runs; nothing that comes after the sentinel is yielded. *)
Theorem inbound_events_in_order :
  (∀ events w,
     _queue (websocket_handler events w)
     = _queue w ++ map Item (non_polls events) ++ [Done])
  ∧ (∀ events,
       __aiter__ (_queue (websocket_handler events new_wrapper))
       = (non_polls events, true))
  ∧ (∀ events,
       __aiter__ (_queue (handle_all events new_wrapper))
       = (non_polls events, false))
  ∧ (∀ events, Poll ∉ non_polls events)
  ∧ (∀ events rest,
       __aiter__ (map Item events ++ Done :: rest) = (events, true)).
Proof.
  split_and!.
  - intros events w. unfold websocket_handler. simpl.
    rewrite handle_all_queue. by rewrite <- app_assoc.
  - intros events. unfold websocket_handler. simpl.
    rewrite handle_all_queue. simpl.
    rewrite __aiter___items. simpl. by rewrite app_nil_r.
  - intros events. rewrite handle_all_queue. simpl.
    rewrite <- (app_nil_r (map Item (non_polls events))).
    rewrite __aiter___items. simpl. by rewrite app_nil_r.
  - intros events Hin. unfold non_polls in Hin.
    apply list_elem_of_filter in Hin as [Hne _]. by apply Hne.
  - intros events rest. rewrite __aiter___items. simpl. by rewrite app_nil_r.
Qed.

(** What the loop does with the outbound queue. *)
Lemma handle_all_outbound events w :
  let n := polls events in
  let w' := handle_all events w in
  _send_queue w' = drop n (_send_queue w)
  ∧ executed w' = executed w ++ take n (_send_queue w)
  ∧ ws_calls w' = ws_calls w ++ map ws_call_of (take n (_send_queue w))
  ∧ _cancelled w' = _cancelled w || existsb cancels (take n (_send_queue w))
  ∧ task_cancelled w'
    = task_cancelled w || existsb cancels (take n (_send_queue w)).
Proof.
  revert w. induction events as [| event events IH]; intros w.
  - simpl. rewrite !app_nil_r, !orb_false_r. done.
  - rewrite handle_all_cons. specialize (IH (handle event w)).
    cbv zeta in IH. destruct IH as (IHq & IHe & IHw & IHc & IHt).
    cbv zeta. rewrite IHq, IHe, IHw, IHc, IHt. clear IHq IHe IHw IHc IHt.
    destruct event as [| id].
    + rewrite polls_cons_Poll. unfold handle.
      destruct (_send_queue w) as [| a rest] eqn:Hq.
      * rewrite Hq. simpl. rewrite !take_nil, !drop_nil. simpl.
        by rewrite !app_nil_r, !orb_false_r.
      * destruct a as [message | code reason reconnect]; simpl;
          rewrite <- ?app_assoc; simpl; try done.
        destruct reconnect; simpl; [done |].
        by destruct (_cancelled w), (task_cancelled w).
    + by rewrite polls_cons_Other.
Qed.

(** X13. Outbound thunks reach the websocket in queue order, each at most
    once: after any events the calls made on the websocket are those of the
    first thunks of the queue, one per poll tick, in order; and no thunk is
    lost or duplicated, the thunks executed followed by the thunks still
    queued being what they were. *)
Theorem outbound_calls_in_order events w :
  ws_calls (handle_all events w)
  = ws_calls w ++ map ws_call_of (take (polls events) (_send_queue w))
  ∧ executed (handle_all events w) ++ _send_queue (handle_all events w)
    = executed w ++ _send_queue w
  ∧ length (ws_calls (handle_all events w))
    = length (ws_calls w) + min (polls events) (length (_send_queue w)).
Proof.
  destruct (handle_all_outbound events w) as (Hq & He & Hw & _).
  split_and!.
  - done.
  - rewrite Hq, He. rewrite <- app_assoc. by rewrite take_drop.
  - rewrite Hw. rewrite length_app, length_map, length_take. done.
Qed.

(** X14. A thunk queued behind a backlog that the poll ticks do not
    exhaust changes nothing of what the handler does: handling the events
    and then queueing the thunk gives the same wrapper as queueing it
    first. *)
Theorem enqueue_behind_backlog a events w :
  polls events ≤ length (_send_queue w) →
  handle_all events (enqueue a w) = enqueue a (handle_all events w).
Proof.
  revert w. induction events as [| event events IH]; intros w Hle; [done |].
  rewrite !handle_all_cons. destruct event as [| id].
  - rewrite polls_cons_Poll in Hle.
    destruct (_send_queue w) as [| b rest] eqn:Hq; [simpl in Hle; lia |].
    assert (handle Poll (enqueue a w) = enqueue a (handle Poll w)) as ->.
    { unfold handle. simpl. rewrite Hq. simpl. by destruct b. }
    apply IH. unfold handle. rewrite Hq. simpl in Hle.
    destruct b; simpl; lia.
  - rewrite polls_cons_Other in Hle.
    assert (handle (Other id) (enqueue a w) = enqueue a (handle (Other id) w))
      as -> by done.
    by apply IH.
Qed.

(** X15. The cancellation flag and the cancellation of the handler task.
    After any events each is set exactly when it was set before or a close
    without reconnect has been executed; a close with reconnect and the
    sending of text never set them, and nothing unsets them.  A close takes
    effect only when a poll tick reaches it: queueing it changes nothing
    but the queue. *)
Theorem cancellation_only_by_close events w :
  _cancelled (handle_all events w)
  = _cancelled w || existsb cancels (take (polls events) (_send_queue w))
  ∧ task_cancelled (handle_all events w)
    = task_cancelled w || existsb cancels (take (polls events) (_send_queue w))
  ∧ (∀ code reason reconnect,
       let w1 := close code reason reconnect w in
       _cancelled w1 = _cancelled w ∧ task_cancelled w1 = task_cancelled w
       ∧ ws_calls w1 = ws_calls w ∧ _queue w1 = _queue w
       ∧ _send_queue w1 = _send_queue w ++ [Close code reason reconnect])
  ∧ (∀ code reason reconnect,
       let w2 := handle Poll (close code reason reconnect new_wrapper) in
       _cancelled w2 = negb reconnect ∧ task_cancelled w2 = negb reconnect
       ∧ ws_calls w2 = [WsClose code reason] ∧ _send_queue w2 = []).
Proof.
  destruct (handle_all_outbound events w) as (_ & _ & _ & Hc & Ht).
  split_and!; done.
Qed.

End CurioWebsocketWrapperMore.

(** * Facts about permissions *)

Module PermissionsFacts.
Import Permissions.

Lemma land_1_testbit (x : Z) : Z.land x 1 = Z.b2z (Z.testbit x 0).
Proof.
  change 1%Z with (Z.ones 1). rewrite Z.land_ones by lia.
  change (2 ^ 1)%Z with 2%Z. symmetry. apply Z.bit0_mod.
Qed.

(** [_get_bit] reads the bit of the two's complement representation. *)
Lemma _get_bit_testbit bit bitfield :
  _get_bit bit bitfield = Z.testbit bitfield (Z.of_nat bit).
Proof.
  unfold _get_bit. rewrite land_1_testbit, Z.shiftr_spec by lia.
  rewrite Z.add_0_l. by destruct (Z.testbit bitfield (Z.of_nat bit)).
Qed.

Lemma testbit_one_shiftl (bit : nat) (i : Z) :
  (0 <= i)%Z →
  Z.testbit (Z.shiftl 1 (Z.of_nat bit)) i = bool_decide (i = Z.of_nat bit).
Proof.
  intros Hi. rewrite Z.shiftl_1_l. rewrite Z.pow2_bits_eqb by lia.
  destruct (Z.eqb_spec (Z.of_nat bit) i) as [Heq | Hne].
  - by rewrite bool_decide_eq_true_2.
  - by rewrite bool_decide_eq_false_2.
Qed.

Lemma _set_bit_testbit bit v bitfield (i : Z) :
  (0 <= i)%Z →
  Z.testbit (_set_bit bit v bitfield) i
  = if bool_decide (i = Z.of_nat bit) then truthy v else Z.testbit bitfield i.
Proof.
  intros Hi. unfold _set_bit. destruct (truthy v).
  - rewrite Z.lor_spec, testbit_one_shiftl by done.
    destruct (bool_decide (i = Z.of_nat bit)); [apply orb_true_r | apply orb_false_r].
  - rewrite Z.land_spec, Z.lnot_spec, testbit_one_shiftl by done.
    destruct (bool_decide (i = Z.of_nat bit)); simpl;
      [apply andb_false_r | apply andb_true_r].
Qed.

(** X16. Bits.  After [_set_bit] the bit reads as the truth value that was
    given, every other bit reads as before, and so do the bits beyond the
    permissions; setting a bit to what it reads changes nothing; two sets
    of the same bit are worth the last one, and sets of different bits
    commute. *)
Theorem set_bit_get_bit bit v bitfield :
  _get_bit bit (_set_bit bit v bitfield) = truthy v
  ∧ (∀ bit', bit' ≠ bit →
       _get_bit bit' (_set_bit bit v bitfield) = _get_bit bit' bitfield)
  ∧ _set_bit bit (VBool (_get_bit bit bitfield)) bitfield = bitfield
  ∧ (∀ v', _set_bit bit v' (_set_bit bit v bitfield) = _set_bit bit v' bitfield)
  ∧ (∀ bit' v', bit' ≠ bit →
       _set_bit bit' v' (_set_bit bit v bitfield)
       = _set_bit bit v (_set_bit bit' v' bitfield)).
Proof.
  split_and!.
  - rewrite _get_bit_testbit, _set_bit_testbit by lia.
    by rewrite bool_decide_eq_true_2.
  - intros bit' Hne. rewrite !_get_bit_testbit, _set_bit_testbit by lia.
    rewrite bool_decide_eq_false_2; [done | lia].
  - apply Z.bits_inj'. intros i Hi. rewrite _set_bit_testbit by done.
    destruct (bool_decide_reflect (i = Z.of_nat bit)) as [-> | Hne]; [| done].
    simpl. apply _get_bit_testbit.
  - intros v'. apply Z.bits_inj'. intros i Hi.
    rewrite !_set_bit_testbit by done.
    by destruct (bool_decide (i = Z.of_nat bit)).
  - intros bit' v' Hne. apply Z.bits_inj'. intros i Hi.
    rewrite !_set_bit_testbit by done.
    destruct (bool_decide_reflect (i = Z.of_nat bit)) as [-> | H1]; [| done].
    rewrite bool_decide_eq_false_2; [done | lia].
Qed.

(** The generated properties are those of [PERMISSION_MAPPING], no name
    and no bit occurs twice, and no bit is beyond 30. *)
Lemma properties_table :
  properties = PERMISSION_MAPPING
  ∧ NoDup properties.*1
  ∧ NoDup properties.*2
  ∧ Forall (fun bit => bit ≤ 30) properties.*2.
Proof.
  split_and!.
  - reflexivity.
  - compute_done.
  - compute_done.
  - compute_done.
Qed.

Lemma entry_elem_of name bit table :
  entry name table = Some bit → (name, bit) ∈ table.
Proof.
  induction table as [| [n b] table IH]; simpl; [done |].
  destruct (decide (n = name)) as [-> | Hne].
  - intros [= ->]. by left.
  - intros H. right. by apply IH.
Qed.

Lemma entry_injective name1 name2 bit table :
  NoDup table.*2 →
  entry name1 table = Some bit → entry name2 table = Some bit → name1 = name2.
Proof.
  induction table as [| [n b] table IH]; simpl; [done |].
  intros Hnd. apply NoDup_cons in Hnd as [Hnot Hnd].
  destruct (decide (n = name1)) as [E1 | Hne1];
    destruct (decide (n = name2)) as [E2 | Hne2].
  - congruence.
  - intros [= ->] H2. exfalso. apply Hnot.
    apply list_elem_of_fmap. exists (name2, bit). split; [done |].
    by apply entry_elem_of.
  - intros H1 [= ->]. exfalso. apply Hnot.
    apply list_elem_of_fmap. exists (name1, bit). split; [done |].
    by apply entry_elem_of.
  - by apply IH.
Qed.

(** X17. Named permissions.  Setting a permission property makes it read
    as the truth value given and leaves every other permission property as
    it was; a name that is no property can be neither read nor set as
    one. *)
Theorem set_permission_get_permission name v bitfield :
  match set_permission name v bitfield with
  | Some bitfield' =>
      get_permission name bitfield' = Some (truthy v)
      ∧ ∀ name', name' ≠ name →
                 get_permission name' bitfield' = get_permission name' bitfield
  | None => get_permission name bitfield = None
  end.
Proof.
  unfold set_permission, get_permission.
  destruct (entry name properties) as [bit |] eqn:Hbit; [| done].
  split.
  - by destruct (set_bit_get_bit bit v bitfield) as (-> & _).
  - intros name' Hne.
    destruct (entry name' properties) as [bit' |] eqn:Hbit'; [| done].
    f_equal. destruct (set_bit_get_bit bit v bitfield) as (_ & Hother & _).
    apply Hother. intros ->. apply Hne.
    destruct properties_table as (_ & _ & Hnd & _).
    by apply (entry_injective name' name bit properties).
Qed.

#[local] Arguments entry : simpl never.

Lemma entry_known_property perm :
  is_Some (entry perm PERMISSION_MAPPING) → is_Some (entry perm properties).
Proof. by destruct properties_table as (-> & _). Qed.

Lemma init_kwargs_known kwargs bitfield :
  Forall (fun kw => is_Some (entry kw.1 PERMISSION_MAPPING)) kwargs →
  NoDup kwargs.*1 →
  ∃ bitfield',
    init_kwargs kwargs bitfield = Ok bitfield'
    ∧ (∀ perm v, (perm, v) ∈ kwargs →
                 get_permission perm bitfield' = Some (truthy v))
    ∧ (∀ name, name ∉ kwargs.*1 →
               get_permission name bitfield' = get_permission name bitfield).
Proof.
  revert bitfield. induction kwargs as [| [perm v] kwargs IH]; intros bitfield.
  - intros _ _. exists bitfield. split_and!; [done | | done].
    intros perm v Hin. by apply elem_of_nil in Hin.
  - intros Hknown Hnd. apply Forall_cons in Hknown as [Hperm Hknown].
    simpl in Hnd. apply NoDup_cons in Hnd as [Hnot Hnd]. simpl in Hperm.
    pose proof (entry_known_property perm Hperm) as [bit Hbit].
    destruct Hperm as [bit0 Hbit0].
    pose proof (set_permission_get_permission perm v bitfield) as Hset.
    cbn [init_kwargs]. rewrite Hbit0.
    destruct (set_permission perm v bitfield) as [bitfield1 |] eqn:Hsp.
    2: { unfold set_permission in Hsp. by rewrite Hbit in Hsp. }
    destruct Hset as [Hsame Hother].
    destruct (IH bitfield1 Hknown Hnd) as (bitfield' & Hinit & Hin' & Hout').
    exists bitfield'. split_and!; [done | |].
    + intros perm' v' Hin. apply elem_of_cons in Hin as [[= -> ->] | Hin].
      * rewrite Hout' by done. exact Hsame.
      * by apply Hin'.
    + intros name Hname. simpl in Hname. apply not_elem_of_cons in Hname as [Hne Hname].
      rewrite Hout' by done. by apply Hother.
Qed.

(** X18. Construction with keyword arguments.  A keyword that is no
    permission of [PERMISSION_MAPPING] makes the construction raise
    [ValueError] with that keyword, also when other keywords are valid.
    When every keyword is a permission, the object is built, every
    permission named reads as the truth value given for it, and every
    other permission reads as in the integer given. *)
Theorem init_with_keywords v kwargs :
  NoDup kwargs.*1 →
  (∀ before perm x after,
     kwargs = before ++ (perm, x) :: after →
     Forall (fun kw => is_Some (entry kw.1 PERMISSION_MAPPING)) before →
     entry perm PERMISSION_MAPPING = None →
     __init__ v kwargs = Err (ValueError perm))
  ∧ (Forall (fun kw => is_Some (entry kw.1 PERMISSION_MAPPING)) kwargs →
     ∃ bitfield,
       __init__ v kwargs = Ok bitfield
       ∧ (∀ perm x, (perm, x) ∈ kwargs →
                    get_permission perm bitfield = Some (truthy x))
       ∧ (∀ name, name ∉ kwargs.*1 →
                  get_permission name bitfield = get_permission name v)).
Proof.
  intros Hnd. split.
  - intros before perm x after -> Hknown Hunknown. unfold __init__.
    clear Hnd. revert v. induction Hknown as [| [p y] before Hp Hknown IH];
      intros v.
    + simpl. by rewrite Hunknown.
    + simpl. simpl in Hp. destruct Hp as [bit ->].
      by destruct (set_permission p y v).
  - intros Hknown. by apply init_kwargs_known.
Qed.

(** X19. [all()] holds every permission and [none()] holds none:
    [raise_for_permission] never raises on the first and always raises on
    the second; on any object it raises [PermissionsError] exactly when the
    permission reads false, so after a permission is set it raises exactly
    when the value given was falsy. *)
Theorem raise_for_permission_spec name bit v bitfield :
  entry name properties = Some bit →
  raise_for_permission name all = Some (Ok tt)
  ∧ raise_for_permission name none = Some (Err (PermissionsError name))
  ∧ raise_for_permission name bitfield
    = Some (if _get_bit bit bitfield then Ok tt
            else Err (PermissionsError name))
  ∧ ∀ bitfield',
      set_permission name v bitfield = Some bitfield' →
      raise_for_permission name bitfield'
      = Some (if truthy v then Ok tt else Err (PermissionsError name)).
Proof.
  intros Hbit.
  assert (bit ≤ 30) as Hle.
  { destruct properties_table as (_ & _ & _ & Hall).
    rewrite Forall_forall in Hall. apply Hall.
    apply list_elem_of_fmap. exists (name, bit). split; [done |].
    by apply entry_elem_of. }
  assert (∀ b, raise_for_permission name b
               = Some (if _get_bit bit b then Ok tt
                       else Err (PermissionsError name))) as Hraise.
  { intros b. unfold raise_for_permission, get_permission. rewrite Hbit.
    by destruct (_get_bit bit b). }
  split_and!.
  - rewrite Hraise, _get_bit_testbit.
    change all with (Z.ones 53). by rewrite Z.ones_spec_low by lia.
  - rewrite Hraise, _get_bit_testbit. unfold none. by rewrite Z.testbit_0_l.
  - apply Hraise.
  - intros bitfield' Hset. unfold set_permission in Hset. rewrite Hbit in Hset.
    injection Hset as <-. rewrite Hraise.
    by destruct (set_bit_get_bit bit v bitfield) as (-> & _).
Qed.

End PermissionsFacts.

(** * Facts about permission overwrites *)

Module OverwriteFacts.
Import Permissions Overwrite PermissionsFacts.

#[local] Arguments entry : simpl never.

Lemma property_not_immutable item bit :
  entry item properties = Some bit → bool_decide (item = "_immutable") = false.
Proof.
  intros Hbit. apply bool_decide_eq_false_2. intros ->.
  vm_compute in Hbit. discriminate.
Qed.

(** X20. Reading a permission of an overwrite.  For a target that is a
    user, a member or a role the permission reads true exactly when the
    target has the administrator permission, or the overwrite allows it,
    or the overwrite does not deny it and the target has it: an
    administrator reads true even on what is denied, and a permission both
    allowed and denied reads true.  For any other target the read raises
    [TypeError]. *)
Theorem overwrite_read item bit o :
  entry item properties = Some bit →
  (∀ permissions,
     base_permissions (target o) = Ok permissions →
     __getattr__ item o
     = Some (Ok (administrator permissions
                 || _get_bit bit (allow o)
                 || (negb (_get_bit bit (deny o)) && _get_bit bit permissions))))
  ∧ (target o = OtherTarget → __getattr__ item o = Some (Err TypeError)).
Proof.
  intros Hbit. unfold __getattr__.
  rewrite (property_not_immutable item bit Hbit). split.
  - intros permissions ->. rewrite Hbit.
    destruct (administrator permissions); [done |].
    destruct (_get_bit bit (allow o)); [done |].
    by destruct (_get_bit bit (deny o)).
  - by intros ->.
Qed.

Lemma __setattr___property key bit v o :
  entry key properties = Some bit →
  _immutable o = false →
  __setattr__ key v o
  = Some (Ok (match v with
              | VBool false =>
                  mkOverwrite (target o) (channel_id o) (allow o)
                    (_set_bit bit (VBool true) (deny o)) false
              | VBool true =>
                  mkOverwrite (target o) (channel_id o)
                    (_set_bit bit (VBool true) (allow o)) (deny o) false
              | VNone =>
                  mkOverwrite (target o) (channel_id o)
                    (_set_bit bit (VBool false) (allow o))
                    (_set_bit bit (VBool false) (deny o)) false
              | _ => o
              end)).
Proof.
  intros Hbit Himm. unfold __setattr__.
  rewrite (property_not_immutable key bit Hbit), Himm, Hbit. simpl.
  by destruct v as [| [] | | | | |].
Qed.

(** X21. Writing then reading a permission of an overwrite that is not
    immutable, for a target without the administrator permission.  After
    [True] the permission reads true.  After [None] it reads as the target
    has it.  After [False] it reads as the overwrite allowed it before: a
    deny does not take back an allow, so [False] written after [True] still
    reads true.  A value that is none of [True], [False], [None] changes
    nothing.  No write changes another permission of the overwrite. *)
Theorem overwrite_write_then_read key bit permissions o :
  entry key properties = Some bit →
  _immutable o = false →
  base_permissions (target o) = Ok permissions →
  administrator permissions = false →
  (∀ o1, __setattr__ key (VBool true) o = Some (Ok o1) →
         __getattr__ key o1 = Some (Ok true))
  ∧ (∀ o1, __setattr__ key VNone o = Some (Ok o1) →
           __getattr__ key o1 = Some (Ok (_get_bit bit permissions)))
  ∧ (∀ o1, __setattr__ key (VBool false) o = Some (Ok o1) →
           __getattr__ key o1 = Some (Ok (_get_bit bit (allow o))))
  ∧ (∀ o1 o2, __setattr__ key (VBool true) o = Some (Ok o1) →
              __setattr__ key (VBool false) o1 = Some (Ok o2) →
              __getattr__ key o2 = Some (Ok true))
  ∧ (∀ v, v ≠ VBool true → v ≠ VBool false → v ≠ VNone →
          __setattr__ key v o = Some (Ok o))
  ∧ (∀ v o1 key',
       key' ≠ key →
       __setattr__ key v o = Some (Ok o1) →
       __getattr__ key' o1 = __getattr__ key' o).
Proof.
  intros Hbit Himm Hbase Hadmin.
  pose proof (fun v => __setattr___property key bit v o Hbit Himm) as Hset.
  assert (∀ o1, target o1 = target o →
                __getattr__ key o1
                = Some (Ok (_get_bit bit (allow o1)
                            || (negb (_get_bit bit (deny o1))
                                && _get_bit bit permissions)))) as Hget.
  { intros o1 Ht.
    destruct (overwrite_read key bit o1 Hbit) as [Hread _].
    rewrite (Hread permissions) by (by rewrite Ht). by rewrite Hadmin. }
  split_and!.
  - intros o1. rewrite Hset. intros [= <-]. rewrite Hget by done. simpl.
    by destruct (set_bit_get_bit bit (VBool true) (allow o)) as (-> & _).
  - intros o1. rewrite Hset. intros [= <-]. rewrite Hget by done. simpl.
    destruct (set_bit_get_bit bit (VBool false) (allow o)) as (-> & _).
    by destruct (set_bit_get_bit bit (VBool false) (deny o)) as (-> & _).
  - intros o1. rewrite Hset. intros [= <-]. rewrite Hget by done. simpl.
    destruct (set_bit_get_bit bit (VBool true) (deny o)) as (-> & _). simpl.
    by rewrite orb_false_r.
  - intros o1 o2. rewrite Hset. intros [= <-].
    rewrite (__setattr___property key bit) by done. intros [= <-].
    rewrite Hget by done. simpl.
    by destruct (set_bit_get_bit bit (VBool true) (allow o)) as (-> & _).
  - intros v H1 H2 H3. rewrite Hset. by destruct v as [| [] | | | | |].
  - intros v o1 key' Hne. rewrite Hset. intros [= <-].
    unfold __getattr__.
    destruct (bool_decide (key' = "_immutable")); [done |].
    assert (∀ a d, target (mkOverwrite (target o) (channel_id o) a d false)
                   = target o) as Ht by done.
    destruct (entry key' properties) as [bit' |] eqn:Hbit'.
    2: { by destruct v as [| [] | | | | |]. }
    assert (bit' ≠ bit) as Hbits.
    { intros ->. apply Hne.
      destruct properties_table as (_ & _ & Hnd & _).
      by apply (entry_injective key' key bit properties). }
    assert (∀ x z, _get_bit bit' (_set_bit bit x z) = _get_bit bit' z) as Hkeep.
    { intros x z. destruct (set_bit_get_bit bit x z) as (_ & Hother & _).
      by apply Hother. }
    destruct v as [| [] | | | | |]; simpl; rewrite ?Hkeep; done.
Qed.

(** X22. An immutable overwrite refuses every write but that of
    [_immutable] itself with [RuntimeError]; writing a falsy [_immutable]
    lifts the refusal, and the permissions can be written again. *)
Theorem overwrite_immutable key v o :
  _immutable o = true →
  (key ≠ "_immutable" → __setattr__ key v o = Some (Err RuntimeError))
  ∧ ∃ o1, __setattr__ "_immutable" v o = Some (Ok o1)
          ∧ _immutable o1 = truthy v
          ∧ allow o1 = allow o ∧ deny o1 = deny o ∧ target o1 = target o
          ∧ (truthy v = false →
             ∀ bit, entry key properties = Some bit →
                    ∃ o2, __setattr__ key (VBool true) o1 = Some (Ok o2)
                          ∧ _get_bit bit (allow o2) = true).
Proof.
  intros Himm. split.
  - intros Hne. unfold __setattr__. rewrite Himm.
    by rewrite bool_decide_eq_false_2.
  - eexists. split; [reflexivity |]. simpl. split_and!; try done.
    intros Hv bit Hbit. eexists. split.
    + apply (__setattr___property key bit); [done | exact Hv].
    + simpl. by destruct (set_bit_get_bit bit (VBool true) (allow o)) as (-> & _).
Qed.

End OverwriteFacts.

(** * More concrete runs *)

Section MoreRuns.

Lemma add_event_from_events_witness :
  sample_async 6 = true
  ∧ getall "A"
      (event_listeners
         (add_event sample_async sample_events (UserFn 6) None sample_manager).1)
    = [UserFn 6; UserFn 6]
  ∧ getall "B"
      (event_listeners
         (add_event sample_async sample_events (UserFn 6) None sample_manager).1)
    = [UserFn 6]
  ∧ event_listeners
      (add_event sample_async sample_events (UserFn 0) None sample_manager).1
    = event_listeners sample_manager
  ∧ add_event sample_async sample_events (UserFn 7) None sample_manager
    = (sample_manager, Raised AttributeError).
Proof.
  destruct (add_event_from_events sample_async sample_events 6 sample_manager
              eq_refl) as (_ & Hget & _).
  destruct (add_event_from_events sample_async sample_events 0 sample_manager
              eq_refl) as (_ & _ & Hnone & _).
  split_and!; [done | apply (Hget "A") | apply (Hget "B") | by apply Hnone |].
  exact (add_event_from_events sample_async sample_events 7 sample_manager
           eq_refl).
Defined.


Lemma add_then_remove_event_hook_witness :
  (UserFn 8 ∉ event_hooks sample_manager)
  ∧ (remove_event_hook (UserFn 8) (add_event_hook (UserFn 8) sample_manager)).2
    = Returned tt
  ∧ event_hooks
      (remove_event_hook (UserFn 8) (add_event_hook (UserFn 8) sample_manager)).1
    = event_hooks sample_manager.
Proof.
  assert (UserFn 8 ∉ event_hooks sample_manager) as Hnot by compute_done.
  destruct (add_then_remove_event_hook (UserFn 8) sample_manager Hnot)
    as (Hret & Hhooks & _).
  split_and!; [exact Hnot | exact Hret | exact Hhooks].
Defined.

Lemma fire_event_keyword_arguments_witness :
  resolve_context "E" extra_kwargs
  = Returned ((0%Z, "E"), delete "gateway" extra_kwargs)
  ∧ delete "gateway" extra_kwargs !! "ctx" = None
  ∧ delete "gateway" extra_kwargs !! "gateway" = None
  ∧ delete "gateway" extra_kwargs !! "extra" = Some (VInt 2).
Proof.
  assert (resolve_context "E" extra_kwargs
          = Returned ((0%Z, "E"), delete "gateway" extra_kwargs)) as Hres
    by reflexivity.
  destruct (fire_event_keyword_arguments "E" [VInt 42] extra_kwargs (0%Z, "E")
              (delete "gateway" extra_kwargs) sample_manager Hres)
    as (Hctx & Hgw & _ & Hother & _).
  split_and!; [exact Hres | exact Hctx | by apply Hgw |].
  rewrite Hother by done. reflexivity.
Defined.


Lemma wait_for_other_event_witness :
  wait_for "X" (Some 0)
    (fun _ _ s =>
       (dispatch sample_handler sample_predicate "E" [VInt 42] gateway_kwargs s,
        None)) sample_manager
  = None
  ∧ registrations "X" (WaitListener 0 (Some 0))
      (temporary_listeners
         (dispatch sample_handler sample_predicate "E" [VInt 42] gateway_kwargs
            (wait_for_register "X" (Some 0) sample_manager).2)) = 1.
Proof.
  destruct (wait_for_other_event sample_handler sample_predicate
              "X" "E" (Some 0) [VInt 42] gateway_kwargs sample_manager)
    as (Hwait & _ & Hreg); [reflexivity | done |].
  split; [exact Hwait | exact Hreg].
Defined.


Lemma enqueue_behind_backlog_witness :
  CurioWebsocketWrapper.handle_all
    [CurioWebsocketWrapper.Poll; CurioWebsocketWrapper.Other 1;
     CurioWebsocketWrapper.Poll]
    (CurioWebsocketWrapper.enqueue (CurioWebsocketWrapper.SendText "c")
       sample_wrapper)
  = CurioWebsocketWrapper.enqueue (CurioWebsocketWrapper.SendText "c")
      (CurioWebsocketWrapper.handle_all
         [CurioWebsocketWrapper.Poll; CurioWebsocketWrapper.Other 1;
          CurioWebsocketWrapper.Poll] sample_wrapper).
Proof.
  apply (CurioWebsocketWrapperMore.enqueue_behind_backlog
           (CurioWebsocketWrapper.SendText "c")
           [CurioWebsocketWrapper.Poll; CurioWebsocketWrapper.Other 1;
            CurioWebsocketWrapper.Poll] sample_wrapper).
  vm_compute. lia.
Defined.

Lemma set_bit_get_bit_witness :
  Permissions._get_bit 3 (Permissions._set_bit 3 (VBool true) 1024) = true
  ∧ Permissions._get_bit 10 (Permissions._set_bit 3 (VBool true) 1024)
    = Permissions._get_bit 10 1024
  ∧ Permissions._set_bit 10 (VBool false) (Permissions._set_bit 3 (VBool true) 1024)
    = Permissions._set_bit 3 (VBool true) (Permissions._set_bit 10 (VBool false) 1024).
Proof.
  destruct (PermissionsFacts.set_bit_get_bit 3 (VBool true) 1024)
    as (Hget & Hother & _ & _ & Hcomm).
  split_and!; [exact Hget | by apply Hother | by apply Hcomm].
Defined.

Lemma set_permission_get_permission_witness :
  ∃ bitfield,
    Permissions.set_permission "kick_members" (VBool true) 1024 = Some bitfield
    ∧ Permissions.get_permission "kick_members" bitfield = Some true
    ∧ Permissions.get_permission "read_messages" bitfield
      = Permissions.get_permission "read_messages" 1024.
Proof.
  pose proof (PermissionsFacts.set_permission_get_permission
                "kick_members" (VBool true) 1024) as H.
  destruct (Permissions.set_permission "kick_members" (VBool true) 1024)
    as [bitfield |] eqn:Hset; [| discriminate].
  destruct H as [Hsame Hother].
  exists bitfield. split_and!; [done | exact Hsame | by apply Hother].
Defined.

Lemma init_with_keywords_witness :
  Permissions.__init__ 0
    [("kick_members", VBool true); ("fly", VBool true);
     ("ban_members", VBool true)]
  = Permissions.Err (Permissions.ValueError "fly")
  ∧ ∃ bitfield,
      Permissions.__init__ 1024
        [("kick_members", VBool true); ("read_messages", VBool false)]
      = Permissions.Ok bitfield
      ∧ Permissions.get_permission "kick_members" bitfield = Some true
      ∧ Permissions.get_permission "read_messages" bitfield = Some false
      ∧ Permissions.get_permission "ban_members" bitfield
        = Permissions.get_permission "ban_members" 1024.
Proof.
  split.
  - destruct (PermissionsFacts.init_with_keywords 0
                [("kick_members", VBool true); ("fly", VBool true);
                 ("ban_members", VBool true)]) as [Hbad _]; [compute_done |].
    apply (Hbad [("kick_members", VBool true)] "fly" (VBool true)
             [("ban_members", VBool true)]); [done | | done].
    apply Forall_cons. split; [by eexists | done].
  - destruct (PermissionsFacts.init_with_keywords 1024
                [("kick_members", VBool true); ("read_messages", VBool false)])
      as [_ Hgood]; [compute_done |].
    destruct Hgood as (bitfield & Hinit & Hin & Hout).
    { apply Forall_cons. split; [by eexists |].
      apply Forall_cons. split; [by eexists | done]. }
    exists bitfield. split_and!; [exact Hinit | | |].
    + apply (Hin "kick_members" (VBool true)). by left.
    + apply (Hin "read_messages" (VBool false)). right. by left.
    + apply Hout. compute_done.
Defined.

Lemma raise_for_permission_spec_witness :
  Permissions.raise_for_permission "administrator" Permissions.all
  = Some (Permissions.Ok tt)
  ∧ Permissions.raise_for_permission "administrator" Permissions.none
    = Some (Permissions.Err (Permissions.PermissionsError "administrator"))
  ∧ Permissions.raise_for_permission "administrator"
      (Permissions._set_bit 3 (VInt 0) 8)
    = Some (Permissions.Err (Permissions.PermissionsError "administrator")).
Proof.
  destruct (PermissionsFacts.raise_for_permission_spec
              "administrator" 3 (VInt 0) 8 eq_refl)
    as (Hall & Hnone & _ & Hset).
  split_and!; [exact Hall | exact Hnone | by apply Hset].
Defined.

Lemma overwrite_read_witness :
  Overwrite.__getattr__ "read_messages" sample_overwrite
  = Some (Permissions.Ok true)
  ∧ Overwrite.__getattr__ "kick_members"
      (Overwrite.__init__ None (Some 2%Z) (Overwrite.Member 8) None)
    = Some (Permissions.Ok true)
  ∧ Overwrite.__getattr__ "kick_members"
      (Overwrite.__init__ None None Overwrite.OtherTarget None)
    = Some (Permissions.Err Permissions.TypeError).
Proof.
  split_and!.
  - destruct (OverwriteFacts.overwrite_read "read_messages" 10 sample_overwrite
                eq_refl) as [Hread _].
    by rewrite (Hread 1024%Z).
  - destruct (OverwriteFacts.overwrite_read "kick_members" 1
                (Overwrite.__init__ None (Some 2%Z) (Overwrite.Member 8) None)
                eq_refl) as [Hread _].
    by rewrite (Hread 8%Z).
  - destruct (OverwriteFacts.overwrite_read "kick_members" 1
                (Overwrite.__init__ None None Overwrite.OtherTarget None)
                eq_refl) as [_ Hother].
    by apply Hother.
Defined.

Lemma overwrite_write_then_read_witness :
  ∃ o1 o2,
    Overwrite.__setattr__ "kick_members" (VBool true) sample_overwrite
    = Some (Permissions.Ok o1)
    ∧ Overwrite.__setattr__ "kick_members" (VBool false) o1
      = Some (Permissions.Ok o2)
    ∧ Overwrite.__getattr__ "kick_members" o2 = Some (Permissions.Ok true)
    ∧ Overwrite.__getattr__ "read_messages" o1
      = Overwrite.__getattr__ "read_messages" sample_overwrite
    ∧ Overwrite.__setattr__ "kick_members" (VInt 1) sample_overwrite
      = Some (Permissions.Ok sample_overwrite).
Proof.
  destruct (OverwriteFacts.overwrite_write_then_read "kick_members" 1 1024
              sample_overwrite eq_refl eq_refl eq_refl eq_refl)
    as (_ & _ & _ & Hsticky & Hignored & Hframe).
  eexists. eexists.
  split; [reflexivity |]. split; [reflexivity |].
  split_and!.
  - by apply (Hsticky _ _ eq_refl eq_refl).
  - by apply (Hframe (VBool true) _ "read_messages").
  - by apply Hignored.
Defined.

Lemma overwrite_immutable_witness :
  ∃ locked,
    Overwrite.__setattr__ "_immutable" (VBool true) sample_overwrite
    = Some (Permissions.Ok locked)
    ∧ Overwrite.__setattr__ "kick_members" (VBool true) locked
      = Some (Permissions.Err Permissions.RuntimeError)
    ∧ ∃ unlocked,
        Overwrite.__setattr__ "_immutable" (VBool false) locked
        = Some (Permissions.Ok unlocked)
        ∧ Overwrite._immutable unlocked = false.
Proof.
  eexists. split; [reflexivity |].
  match goal with
  | |- Overwrite.__setattr__ _ _ ?locked = _ ∧ _ =>
      destruct (OverwriteFacts.overwrite_immutable "kick_members" (VBool true)
                  locked eq_refl) as [Hrefused _];
      destruct (OverwriteFacts.overwrite_immutable "kick_members" (VBool false)
                  locked eq_refl) as [_ (unlocked & Hset & Hflag & _)]
  end.
  split; [by apply Hrefused |].
  exists unlocked. split; [exact Hset | exact Hflag].
Defined.


End MoreRuns.

(** * Facts about the manager, whatever its callables *)

Section GeneralFacts.

Variable iscoroutinefunction : nat -> bool.
Variable func_events : nat -> option (list string).
Variable task_manager_set : bool.
Variable has_name : nat -> bool.
Variable handler_body : nat -> list value -> kwargs_t -> completion unit.
Variable predicate_body : nat -> list value -> completion value.

Implicit Types (st : state) (func l : callable) (args : list value)
  (kwargs : kwargs_t) (key name : string) (t : task) (ts : list task).

(** ** The loops of a firing *)

Lemma set_task_manager_same st :
  set_task_manager (task_manager st ++ []) st = st.
Proof. unfold set_task_manager. rewrite app_nil_r. by destruct st. Qed.

(** With a task manager, a spawning loop runs to its end. *)
Lemma spawn_each_set ts st :
  task_manager_set = true →
  General.spawn_each task_manager_set ts st = (spawn_each ts st, Returned tt).
Proof.
  intros Hset. destruct task_manager_set; [clear Hset | done].
  unfold spawn_each. revert st.
  induction ts as [| t ts IH]; intros st; [done |].
  cbn [General.spawn_each foldl]. apply IH.
Qed.

(** Without one, it stops at its first task. *)
Lemma spawn_each_unset ts st :
  task_manager_set = false →
  General.spawn_each task_manager_set ts st
  = (st, match ts with [] => Returned tt | _ => Raised AttributeError end).
Proof.
  intros Hset. destruct task_manager_set; [done | clear Hset].
  by destruct ts as [| t ts].
Qed.

(** The loop over the handlers runs to its end when every handler has a
    name. *)
Lemma spawn_handlers_named handlers args kwargs st :
  task_manager_set = true →
  Forall (fun h => General.named has_name h = true) handlers →
  General.spawn_handlers task_manager_set has_name handlers args kwargs st
  = (spawn_each (map (fun h => SafetyTask h args kwargs) handlers) st,
     Returned tt).
Proof.
  intros Hset Hall. destruct task_manager_set; [clear Hset | done].
  unfold spawn_each. revert st.
  induction Hall as [| h handlers Hh Hall IH]; intros st; [done |].
  cbn [General.spawn_handlers map foldl]. rewrite Hh. apply IH.
Qed.

(** It stops at the first handler without a name: the wrappers of the
    handlers before it are spawned, those of the handlers after it are
    not. *)
Lemma spawn_handlers_nameless before h after args kwargs st :
  task_manager_set = true →
  Forall (fun h => General.named has_name h = true) before →
  General.named has_name h = false →
  General.spawn_handlers task_manager_set has_name (before ++ h :: after)
    args kwargs st
  = (spawn_each (map (fun h => SafetyTask h args kwargs) before) st,
     Raised AttributeError).
Proof.
  intros Hset Hall Hh. destruct task_manager_set; [clear Hset | done].
  unfold spawn_each. revert st.
  induction Hall as [| h' before Hh' Hall IH]; intros st.
  - cbn [app General.spawn_handlers]. by rewrite Hh.
  - cbn [app General.spawn_handlers map foldl]. rewrite Hh'. apply IH.
Qed.

(** Whatever happens, a loop spawns some of its tasks and changes nothing
    else. *)
Lemma spawn_each_some ts st :
  ∃ ts1, (∀ t, t ∈ ts1 → t ∈ ts)
         ∧ (General.spawn_each task_manager_set ts st).1
           = set_task_manager (task_manager st ++ ts1) st.
Proof.
  pose proof (spawn_each_set ts st) as Hyes.
  pose proof (spawn_each_unset ts st) as Hno.
  destruct task_manager_set.
  - exists ts. split; [done |]. rewrite Hyes by done. simpl.
    rewrite <- (state_eta (spawn_each ts st)).
    destruct (spawn_each_frame ts st) as (Hr & -> & -> & -> & ->).
    injection Hr as -> -> ->. by rewrite spawn_each_task_manager.
  - exists []. split; [by intros t Hin%elem_of_nil |].
    rewrite Hno by done. simpl. by rewrite set_task_manager_same.
Qed.

Lemma spawn_handlers_some handlers args kwargs st :
  ∃ ts1, (∀ t, t ∈ ts1 → t ∈ map (fun h => SafetyTask h args kwargs) handlers)
         ∧ (General.spawn_handlers task_manager_set has_name handlers
              args kwargs st).1
           = set_task_manager (task_manager st ++ ts1) st.
Proof.
  revert st. induction handlers as [| h handlers IH]; intros st.
  - exists []. split; [done |]. simpl. by rewrite set_task_manager_same.
  - cbn [General.spawn_handlers].
    destruct (General.named has_name h);
      [| exists []; split; [by intros t Hin%elem_of_nil |];
         simpl; by rewrite set_task_manager_same ].
    unfold General.spawn at 1. destruct task_manager_set;
      [| exists []; split; [by intros t Hin%elem_of_nil |];
         simpl; by rewrite set_task_manager_same ].
    destruct (IH (set_task_manager
                    (task_manager st ++ [SafetyTask h args kwargs]) st))
      as (ts1 & Hsub & Heq).
    exists (SafetyTask h args kwargs :: ts1). split.
    + intros t [-> | Hin]%elem_of_cons; simpl; [by left |].
      right. by apply Hsub.
    + rewrite Heq. unfold set_task_manager. simpl.
      by rewrite <- app_assoc.
Qed.

(** ** fire_event *)

Lemma fire_event_unbound name args kwargs st :
  General.binds ["self"; "event_name"] kwargs = false →
  General.fire_event task_manager_set has_name name args kwargs st
  = (st, Raised TypeError).
Proof. intros Hb. unfold General.fire_event. by rewrite Hb. Qed.

Lemma fire_event_unresolved name args kwargs e st :
  General.binds ["self"; "event_name"] kwargs = true →
  resolve_context name kwargs = Raised e →
  General.fire_event task_manager_set has_name name args kwargs st
  = (st, Raised e).
Proof. intros Hb Hres. unfold General.fire_event. by rewrite Hb, Hres. Qed.

(** In a manager in use the firing is the one of the sections above. *)
Lemma fire_event_general name args kwargs st :
  task_manager_set = true →
  General.binds ["self"; "event_name"] kwargs = true →
  Forall (fun h => General.named has_name h = true)
    (getall name (event_listeners st)) →
  General.fire_event task_manager_set has_name name args kwargs st
  = fire_event name args kwargs st.
Proof.
  intros Hset Hb Hall. unfold General.fire_event, fire_event. rewrite Hb.
  simpl. destruct (resolve_context name kwargs) as [[ctx kwargs'] | e]; [| done].
  cbv zeta. rewrite spawn_each_set by done.
  destruct (spawn_each_frame
              (hook_tasks args kwargs' (set_event_context (Some ctx) st))
              (set_event_context (Some ctx) st)) as (Hr & _).
  injection Hr as _ He _. simpl in He.
  rewrite spawn_handlers_named; [| done | by rewrite He].
  unfold handler_tasks. by rewrite spawn_each_set.
Qed.

(** A handler without a name under the event: the firing raises
    [AttributeError] once the hooks and the handlers before it are
    spawned. *)
Lemma fire_event_nameless name args kwargs ctx kwargs' before h after st :
  task_manager_set = true →
  General.binds ["self"; "event_name"] kwargs = true →
  resolve_context name kwargs = Returned (ctx, kwargs') →
  getall name (event_listeners st) = before ++ h :: after →
  Forall (fun h => General.named has_name h = true) before →
  General.named has_name h = false →
  General.fire_event task_manager_set has_name name args kwargs st
  = (mkState
       (task_manager st ++ hook_tasks args kwargs' st
          ++ map (fun h => SafetyTask h args kwargs') before)
       (event_hooks st) (event_listeners st) (temporary_listeners st)
       (promises st) (Some ctx) (calls st) (log st),
     Raised AttributeError).
Proof.
  intros Hset Hb Hres Hget Hall Hh. unfold General.fire_event.
  rewrite Hb, Hres. cbv zeta. simpl negb. cbv iota.
  rewrite spawn_each_set by done.
  set (st1 := set_event_context (Some ctx) st).
  set (st2 := spawn_each (hook_tasks args kwargs' st1) st1).
  destruct (spawn_each_frame (hook_tasks args kwargs' st1) st1)
    as (Hr & Hp & Hc & Hk & Hl).
  fold st2 in Hr, Hp, Hc, Hk, Hl. injection Hr as Hh2 He2 Ht2.
  rewrite He2. simpl event_listeners. rewrite Hget.
  rewrite spawn_handlers_nameless by done. f_equal.
  set (st3 := spawn_each (map (fun h0 => SafetyTask h0 args kwargs') before) st2).
  destruct (spawn_each_frame (map (fun h0 => SafetyTask h0 args kwargs') before) st2)
    as (Hr3 & Hp3 & Hc3 & Hk3 & Hl3).
  fold st3 in Hr3, Hp3, Hc3, Hk3, Hl3. injection Hr3 as Hh3 He3 Ht3.
  rewrite <- (state_eta st3).
  f_equal; [| congruence | congruence | congruence | by rewrite Hp3, Hp
            | by rewrite Hc3, Hc | by rewrite Hk3, Hk | by rewrite Hl3, Hl ].
  unfold st3. rewrite spawn_each_task_manager.
  unfold st2. rewrite spawn_each_task_manager. by rewrite <- app_assoc.
Qed.

(** Before the task manager is set: the context is set, nothing is
    spawned, and the firing raises [AttributeError] as soon as there is
    anything to spawn. *)
Lemma fire_event_unset name args kwargs ctx kwargs' st :
  task_manager_set = false →
  General.binds ["self"; "event_name"] kwargs = true →
  resolve_context name kwargs = Returned (ctx, kwargs') →
  General.fire_event task_manager_set has_name name args kwargs st
  = (set_event_context (Some ctx) st,
     if decide (event_hooks st = ∅
                ∧ getall name (event_listeners st) = []
                ∧ getall name (temporary_listeners st) = [])
     then Returned tt else Raised AttributeError).
Proof.
  intros Hset Hb Hres. unfold General.fire_event.
  rewrite Hb, Hres. cbv zeta. simpl negb. cbv iota.
  rewrite spawn_each_unset by done.
  unfold hook_tasks. simpl event_hooks.
  destruct (elements (event_hooks st)) as [| hook hooks] eqn:Hhooks.
  - apply elements_empty_inv in Hhooks. apply leibniz_equiv in Hhooks.
    simpl map. cbv iota. simpl event_listeners.
    destruct (getall name (event_listeners st)) as [| h hs] eqn:Hhs.
    + cbn [General.spawn_handlers]. rewrite spawn_each_unset by done.
      unfold listener_tasks. simpl temporary_listeners.
      destruct (getall name (temporary_listeners st)) as [| l ls] eqn:Hls.
      * simpl. by rewrite decide_True.
      * simpl. rewrite decide_False; [done |]. by intros (_ & _ & ?).
    + cbn [General.spawn_handlers]. unfold General.spawn.
      destruct (General.named has_name h), task_manager_set; try done;
        (rewrite decide_False; [done |]; by intros (_ & ? & _)).
  - simpl map. cbv iota. rewrite decide_False; [done |].
    intros (Hempty & _). rewrite Hempty in Hhooks.
    by rewrite elements_empty in Hhooks.
Qed.

(** Whatever happens in a firing whose context resolves: the context is
    set, some of the tasks of the hooks, handlers and listeners are
    spawned, and nothing else changes. *)
Lemma fire_event_some name args kwargs ctx kwargs' st :
  General.binds ["self"; "event_name"] kwargs = true →
  resolve_context name kwargs = Returned (ctx, kwargs') →
  ∃ ts, (∀ t, t ∈ ts →
              t ∈ hook_tasks args kwargs' st
                    ++ handler_tasks name args kwargs' st
                    ++ listener_tasks name args kwargs' st)
        ∧ (General.fire_event task_manager_set has_name name args kwargs st).1
          = mkState (task_manager st ++ ts)
              (event_hooks st) (event_listeners st) (temporary_listeners st)
              (promises st) (Some ctx) (calls st) (log st).
Proof.
  intros Hb Hres. unfold General.fire_event.
  rewrite Hb, Hres. cbv zeta. simpl negb. cbv iota.
  set (st1 := set_event_context (Some ctx) st).
  destruct (spawn_each_some (hook_tasks args kwargs' st1) st1)
    as (ts1 & Hsub1 & Heq1).
  destruct (General.spawn_each task_manager_set (hook_tasks args kwargs' st1) st1)
    as [st2 r2]. cbn [fst] in Heq1.
  destruct r2 as [[] | e2].
  2: { exists ts1. split; [| by rewrite Heq1]. intros t Hin.
       apply elem_of_app. left. by apply Hsub1. }
  destruct (spawn_handlers_some (getall name (event_listeners st2)) args kwargs' st2)
    as (ts2 & Hsub2 & Heq2).
  destruct (General.spawn_handlers task_manager_set has_name
              (getall name (event_listeners st2)) args kwargs' st2)
    as [st3 r3]. cbn [fst] in Heq2.
  assert (∀ t, t ∈ ts1 ++ ts2 →
               t ∈ hook_tasks args kwargs' st
                     ++ handler_tasks name args kwargs' st
                     ++ listener_tasks name args kwargs' st) as Hsub12.
  { intros t [Hin | Hin]%elem_of_app; rewrite !elem_of_app.
    - left. by apply Hsub1.
    - right. left. apply Hsub2 in Hin. by rewrite Heq1 in Hin. }
  destruct r3 as [[] | e3].
  2: { exists (ts1 ++ ts2). split; [done |]. cbn [fst].
       rewrite Heq2, Heq1. unfold set_task_manager. simpl.
       by rewrite <- app_assoc. }
  destruct (spawn_each_some (listener_tasks name args kwargs' st3) st3)
    as (ts3 & Hsub3 & Heq3).
  rewrite Heq3. exists (ts1 ++ ts2 ++ ts3). split.
  - intros t Hin. rewrite app_assoc in Hin.
    apply elem_of_app in Hin as [Hin | Hin]; [by apply Hsub12 |].
    rewrite !elem_of_app. right. right. apply Hsub3 in Hin.
    by rewrite Heq2, Heq1 in Hin.
  - rewrite Heq2, Heq1. unfold set_task_manager. simpl.
    by rewrite <- !app_assoc.
Qed.

(** Whatever happens in a firing: only the context and the task manager
    change, and what is spawned is a task of a hook, of a handler under
    the name or of a listener under the name. *)
Lemma fire_event_frame name args kwargs st :
  let st' := (General.fire_event task_manager_set has_name name args kwargs st).1 in
  registries st' = registries st
  ∧ promises st' = promises st
  ∧ calls st' = calls st
  ∧ log st' = log st
  ∧ ∃ ts, task_manager st' = task_manager st ++ ts
          ∧ ∀ t, t ∈ ts →
                 (∃ a k, t = HookTask (task_callable t) a k
                         ∧ task_callable t ∈ event_hooks st)
                 ∨ (∃ a k, t = SafetyTask (task_callable t) a k
                           ∧ task_callable t ∈ getall name (event_listeners st))
                 ∨ (∃ a k, t = ListenerTask name (task_callable t) a k
                           ∧ task_callable t
                               ∈ getall name (temporary_listeners st)).
Proof.
  intros st'. subst st'.
  destruct (General.binds ["self"; "event_name"] kwargs) eqn:Hb.
  2: { rewrite fire_event_unbound by done. simpl. split_and!; try done.
       exists []. split; [by rewrite app_nil_r | by intros t Hin%elem_of_nil]. }
  destruct (resolve_context name kwargs) as [[ctx kwargs'] | e] eqn:Hres.
  2: { rewrite (fire_event_unresolved _ _ _ e) by done. simpl.
       split_and!; try done.
       exists []. split; [by rewrite app_nil_r | by intros t Hin%elem_of_nil]. }
  destruct (fire_event_some name args kwargs ctx kwargs' st Hb Hres)
    as (ts & Hsub & ->). simpl. split_and!; try done.
  exists ts. split; [done |]. intros t Hin. apply Hsub in Hin.
  rewrite !elem_of_app in Hin.
  unfold hook_tasks, handler_tasks, listener_tasks in Hin.
  rewrite !list_elem_of_fmap in Hin.
  destruct Hin as [(h & -> & Hin) | [(h & -> & Hin) | (h & -> & Hin)]]; simpl.
  - left. exists args, kwargs'. split; [done |]. by apply elem_of_elements.
  - right. left. by exists args, kwargs'.
  - right. right. by exists args, kwargs'.
Qed.

(** ** The listener wrapper *)

(** A keyword argument named like a parameter of the wrapper: the call
    raises [TypeError], the listener is not called and nothing changes. *)
Lemma _listener_wrapper_unbound key func args kwargs st :
  General.binds ["self"; "key"; "func"] kwargs = false →
  General._listener_wrapper has_name handler_body predicate_body
    key func args kwargs st
  = (st, Raised TypeError).
Proof. intros Hb. unfold General._listener_wrapper. by rewrite Hb. Qed.

(** For a listener that has a name, the wrapper is the one of the sections
    above. *)
Lemma _listener_wrapper_named key func args kwargs st :
  General.binds ["self"; "key"; "func"] kwargs = true →
  General.named has_name func = true →
  General._listener_wrapper has_name handler_body predicate_body
    key func args kwargs st
  = _listener_wrapper handler_body predicate_body key func args kwargs st.
Proof.
  intros Hb Hn. unfold General._listener_wrapper, _listener_wrapper.
  rewrite Hb, Hn. simpl.
  by destruct (invoke handler_body predicate_body func args kwargs st)
    as [st1 [[] | []]].
Qed.

(** So it is when the listener returns or raises [ListenerExit]. *)
Lemma _listener_wrapper_no_fault key func args kwargs st :
  General.binds ["self"; "key"; "func"] kwargs = true →
  (∀ e, (invoke handler_body predicate_body func args kwargs st).2 = Raised e →
        e = ListenerExit) →
  General._listener_wrapper has_name handler_body predicate_body
    key func args kwargs st
  = _listener_wrapper handler_body predicate_body key func args kwargs st.
Proof.
  intros Hb He. unfold General._listener_wrapper, _listener_wrapper.
  rewrite Hb. simpl.
  destruct (invoke handler_body predicate_body func args kwargs st)
    as [st1 [[] | e]]; [done |].
  by rewrite (He e eq_refl).
Qed.

(** A listener without a name that faults: reading [func.__name__] for
    the log raises [AttributeError], which leaves the wrapper; nothing is
    logged and the listener is not removed. *)
Lemma _listener_wrapper_nameless key func args kwargs e st st1 :
  General.binds ["self"; "key"; "func"] kwargs = true →
  General.named has_name func = false →
  invoke handler_body predicate_body func args kwargs st = (st1, Raised e) →
  e ≠ ListenerExit →
  General._listener_wrapper has_name handler_body predicate_body
    key func args kwargs st
  = (st1, Raised AttributeError).
Proof.
  intros Hb Hn Hinv He. unfold General._listener_wrapper.
  rewrite Hb, Hinv, Hn. simpl. by destruct e.
Qed.

(** ** Running tasks *)

(** The state a task ends in is the one it ends in in the sections above,
    the one its call ends in, or the state it started in. *)
Lemma run_task_state t st :
  ∃ t', task_callable t' = task_callable t
        ∧ ((General.run_task has_name handler_body predicate_body t st).1
           = (run_task handler_body predicate_body t' st).1
           ∨ (General.run_task has_name handler_body predicate_body t st).1 = st).
Proof.
  destruct t as [h args kwargs | h args kwargs | key h args kwargs].
  - exists (HookTask h args kwargs). split; [done |]. by left.
  - exists (SafetyTask h args kwargs). split; [done |]. by left.
  - cbn [General.run_task].
    destruct (General.binds ["self"; "key"; "func"] kwargs) eqn:Hb.
    2: { exists (ListenerTask key h args kwargs). split; [done |]. right.
         by rewrite _listener_wrapper_unbound. }
    destruct (General.named has_name h) eqn:Hn.
    { exists (ListenerTask key h args kwargs). split; [done |]. left.
      by rewrite _listener_wrapper_named. }
    destruct (invoke handler_body predicate_body h args kwargs st)
      as [st1 r] eqn:Hinv.
    destruct r as [[] | e].
    { exists (ListenerTask key h args kwargs). split; [done |]. left.
      rewrite _listener_wrapper_no_fault; [done | done |].
      rewrite Hinv. by intros e [=]. }
    destruct (decide (e = ListenerExit)) as [-> | He].
    { exists (ListenerTask key h args kwargs). split; [done |]. left.
      rewrite _listener_wrapper_no_fault; [done | done |].
      rewrite Hinv. by intros e [= <-]. }
    exists (HookTask h args kwargs). split; [done |]. left.
    rewrite (_listener_wrapper_nameless _ _ _ _ e st st1) by done.
    simpl. by rewrite Hinv.
Qed.

Lemma run_tasks_app_general ts1 ts2 st :
  General.run_tasks has_name handler_body predicate_body (ts1 ++ ts2) st =
  let r1 := General.run_tasks has_name handler_body predicate_body ts1 st in
  let r2 := General.run_tasks has_name handler_body predicate_body ts2 r1.1 in
  (r2.1, r1.2 ++ r2.2).
Proof.
  revert st. induction ts1 as [| t ts1 IH]; intros st; simpl.
  - by destruct (General.run_tasks has_name handler_body predicate_body ts2 st).
  - destruct (General.run_task has_name handler_body predicate_body t st)
      as [st1 r].
    rewrite IH. simpl.
    destruct (General.run_tasks has_name handler_body predicate_body ts1 st1)
      as [st2 rs1]. simpl.
    by destruct (General.run_tasks has_name handler_body predicate_body ts2 st2).
Qed.

(** Tasks whose callable is not the listener of cell [c] leave the cell and
    the registrations of that listener as they are. *)
Lemma run_tasks_other_general ts c st :
  Forall (fun t => ∀ pr, task_callable t ≠ WaitListener c pr) ts →
  let st' := (General.run_tasks has_name handler_body predicate_body ts st).1 in
  promises st' !! c = promises st !! c
  ∧ ∀ key pr, registrations key (WaitListener c pr) (temporary_listeners st')
              = registrations key (WaitListener c pr) (temporary_listeners st).
Proof.
  intros Hall. revert st. induction Hall as [| t ts Ht Hts IH]; intros st.
  - done.
  - simpl.
    destruct (run_task_state t st) as (t' & Hc & Hst).
    assert (promises (General.run_task has_name handler_body predicate_body t st).1
              !! c = promises st !! c
            ∧ ∀ key pr,
                registrations key (WaitListener c pr)
                  (temporary_listeners
                     (General.run_task has_name handler_body predicate_body t st).1)
                = registrations key (WaitListener c pr) (temporary_listeners st))
      as [Hcell Hreg].
    { destruct Hst as [-> | ->]; [| done]. split.
      - apply run_task_other_cell. by rewrite Hc.
      - intros key pr. apply run_task_other_registrations. rewrite Hc. apply Ht. }
    destruct (General.run_task has_name handler_body predicate_body t st)
      as [st1 r].
    specialize (IH st1). simpl in *.
    destruct (General.run_tasks has_name handler_body predicate_body ts st1)
      as [st2 rs].
    simpl in *. destruct IH as [IHc IHr]. split.
    + by rewrite IHc.
    + intros key pr. by rewrite IHr.
Qed.


(** A task whose call binds makes the call of the task; the others make no
    call. *)
Lemma run_task_calls_general t st :
  calls (General.run_task has_name handler_body predicate_body t st).1
  = calls st ++ (if General.task_binds t then [task_invocation t] else []).
Proof.
  destruct t as [h args kwargs | h args kwargs | key h args kwargs];
    cbn [General.run_task General.task_binds task_invocation].
  - by destruct (invoke_frame handler_body predicate_body h args kwargs st)
      as (_ & _ & -> & _).
  - by destruct (_safety_wrapper_frame handler_body predicate_body h args kwargs st)
      as (_ & _ & ->).
  - unfold General._listener_wrapper.
    destruct (General.binds ["self"; "key"; "func"] kwargs); simpl;
      [| by rewrite app_nil_r].
    destruct (invoke_frame handler_body predicate_body h args kwargs st)
      as (_ & _ & Hc & _).
    destruct (invoke handler_body predicate_body h args kwargs st)
      as [st1 [[] | e]]; simpl in *; [done |].
    destruct e; simpl; try done; by destruct (General.named has_name h).
Qed.

Lemma run_task_frame_general t st :
  let st' := (General.run_task has_name handler_body predicate_body t st).1 in
  task_manager st' = task_manager st
  ∧ event_hooks st' = event_hooks st
  ∧ event_listeners st' = event_listeners st
  ∧ ∀ entry, entry ∈ temporary_listeners st' → entry ∈ temporary_listeners st.
Proof.
  destruct (run_task_state t st) as (t' & _ & [-> | ->]); [| done].
  apply run_task_frame.
Qed.

Lemma run_tasks_calls_general ts st :
  let st' := (General.run_tasks has_name handler_body predicate_body ts st).1 in
  calls st' = calls st ++ map task_invocation (List.filter General.task_binds ts)
  ∧ task_manager st' = task_manager st
  ∧ event_hooks st' = event_hooks st
  ∧ event_listeners st' = event_listeners st
  ∧ ∀ entry, entry ∈ temporary_listeners st' → entry ∈ temporary_listeners st.
Proof.
  revert st. induction ts as [| t ts IH]; intros st.
  - simpl. by rewrite app_nil_r.
  - simpl.
    pose proof (run_task_calls_general t st) as Hc.
    pose proof (run_task_frame_general t st) as (Htm & Hh & He & Htl).
    destruct (General.run_task has_name handler_body predicate_body t st)
      as [st1 r].
    specialize (IH st1). simpl in *.
    destruct (General.run_tasks has_name handler_body predicate_body ts st1)
      as [st2 rs].
    simpl in *. destruct IH as (IHc & IHtm & IHh & IHe & IHtl).
    split_and!; try congruence.
    + rewrite IHc, Hc. rewrite <- app_assoc.
      by destruct (General.task_binds t).
    + intros entry Hin. by apply Htl, IHtl.
Qed.

(** ** Permanent handlers *)


(** ** Temporary listeners *)



(** ** Registration and firing *)

(** X1. [add_event] under a name.  A callable that is not a coroutine
    function is refused with [TypeError] and nothing is registered.  A
    coroutine function is appended to the handlers of the name, also when
    it is registered there already; the handlers of the other names, the
    hooks and the temporary listeners stay.  In a manager whose task
    manager is set and whose former handlers under the name carry a
    [__name__], a firing of the name then spawns the safety wrappers it
    spawned before, followed by one for the new registration when the new
    handler carries a [__name__]; when it does not, the firing raises
    [AttributeError] once the former wrappers are spawned, and spawns no
    wrapper for the new handler and none for the temporary listeners. *)
Theorem add_event_named func name st :
  (is_coroutine_function iscoroutinefunction func = false →
   add_event iscoroutinefunction func_events func (Some name) st
   = (st, Raised TypeError))
  ∧ (is_coroutine_function iscoroutinefunction func = true →
     let st' := (add_event iscoroutinefunction func_events func (Some name) st).1 in
     (add_event iscoroutinefunction func_events func (Some name) st).2
       = Returned tt
     ∧ getall name (event_listeners st')
       = getall name (event_listeners st) ++ [func]
     ∧ (∀ name', name' ≠ name →
          getall name' (event_listeners st') = getall name' (event_listeners st))
     ∧ event_hooks st' = event_hooks st
     ∧ temporary_listeners st' = temporary_listeners st
     ∧ ∀ args kwargs ctx kwargs',
         task_manager_set = true →
         General.binds ["self"; "event_name"] kwargs = true →
         resolve_context name kwargs = Returned (ctx, kwargs') →
         Forall (fun h => General.named has_name h = true)
           (getall name (event_listeners st)) →
         let fired := General.fire_event task_manager_set has_name
                        name args kwargs st' in
         let former := hook_tasks args kwargs' st
                         ++ map (fun h => SafetyTask h args kwargs')
                              (getall name (event_listeners st)) in
         if General.named has_name func
         then fired.2 = Returned tt
              ∧ spawned_by st' fired.1
                = former ++ [SafetyTask func args kwargs']
                    ++ listener_tasks name args kwargs' st
         else fired.2 = Raised AttributeError
              ∧ spawned_by st' fired.1 = former).
Proof.
  split.
  - intros Hno. unfold add_event. by rewrite Hno.
  - intros Hyes st'. subst st'. unfold add_event. rewrite Hyes. simpl.
    assert (∀ name', getall name' (md_add name func (event_listeners st))
                     = getall name' (event_listeners st)
                         ++ (if decide (name = name') then [func] else []))
      as Hget by (intros; apply getall_md_add).
    split_and!; try done.
    + rewrite Hget. by rewrite decide_True.
    + intros name' Hne. rewrite Hget. rewrite decide_False by done.
      by rewrite app_nil_r.
    + intros args kwargs ctx kwargs' Hset Hb Hres Hall.
      match goal with
      | |- context [General.fire_event _ _ _ _ _ ?s] => set (st' := s)
      end.
      assert (getall name (event_listeners st')
              = getall name (event_listeners st) ++ [func]) as Hget'.
      { unfold st'. simpl. rewrite Hget. by rewrite decide_True. }
      cbv zeta. destruct (General.named has_name func) eqn:Hn.
      * rewrite fire_event_general; [| done | done |].
        2: { rewrite Hget'. apply Forall_app. split; [done |].
             by apply Forall_singleton. }
        rewrite (fire_event_spawned _ _ _ _ _ _ Hres).
        rewrite (fire_event_resolved _ _ _ _ _ _ Hres).
        split; [done |]. unfold handler_tasks. rewrite Hget', map_app.
        simpl. by rewrite <- !app_assoc.
      * rewrite (fire_event_nameless name args kwargs ctx kwargs'
                   (getall name (event_listeners st)) func [] st')
          by done.
        split; [done |]. simpl. by apply spawned_by_app.
Qed.

(** X6. The dispatch context.  In a firing whose call binds, with a [ctx]
    keyword argument the context of the firing keeps the shard of that
    context and takes the name of the fired event, whatever event name the
    context carried and whether or not a [gateway] is passed too; without
    [ctx] it is made of the shard of the gateway and the name of the
    event.  The context is set before anything is spawned: it is set also
    when the firing raises afterwards, as it does, with [AttributeError]
    and nothing spawned, when the task manager is not set and there is
    something to spawn.  A firing whose call does not bind, or whose
    context does not resolve, leaves the state, the current context
    included, as it was.  No firing touches the registries, the promises,
    the calls made or the log. *)
Theorem fire_event_context name args kwargs st :
  let fired := General.fire_event task_manager_set has_name
                 name args kwargs st in
  (General.binds ["self"; "event_name"] kwargs = true →
   (∀ shard_id old_name,
      kwargs !! "ctx" = Some (VContext shard_id old_name) →
      event_context fired.1 = Some (shard_id, name))
   ∧ (∀ shard_id,
        kwargs !! "ctx" = None →
        kwargs !! "gateway" = Some (VGateway shard_id) →
        event_context fired.1 = Some (shard_id, name))
   ∧ (∀ ctx kwargs',
        resolve_context name kwargs = Returned (ctx, kwargs') →
        task_manager_set = false →
        event_hooks st ≠ ∅
        ∨ getall name (event_listeners st) ≠ []
        ∨ getall name (temporary_listeners st) ≠ [] →
        fired = (set_event_context (Some ctx) st, Raised AttributeError))
   ∧ (∀ e, resolve_context name kwargs = Raised e → fired = (st, Raised e)))
  ∧ (General.binds ["self"; "event_name"] kwargs = false →
     fired = (st, Raised TypeError))
  ∧ registries fired.1 = registries st
  ∧ promises fired.1 = promises st
  ∧ calls fired.1 = calls st
  ∧ log fired.1 = log st.
Proof.
  intros fired. subst fired.
  assert (∀ ctx kwargs',
            General.binds ["self"; "event_name"] kwargs = true →
            resolve_context name kwargs = Returned (ctx, kwargs') →
            event_context
              (General.fire_event task_manager_set has_name name args kwargs st).1
            = Some ctx) as Hctx.
  { intros ctx kwargs' Hb Hres.
    by destruct (fire_event_some name args kwargs ctx kwargs' st Hb Hres)
      as (ts & _ & ->). }
  destruct (fire_event_frame name args kwargs st) as (Hr & Hp & Hc & Hl & _).
  split_and!; try done.
  - intros Hb. split_and!.
    + intros shard_id old_name Hk.
      apply (Hctx _ (delete "ctx" kwargs) Hb).
      unfold resolve_context. by rewrite Hk.
    + intros shard_id Hk Hgw.
      apply (Hctx _ (delete "gateway" kwargs) Hb).
      unfold resolve_context. by rewrite Hk, Hgw.
    + intros ctx kwargs' Hres Hset Hsome.
      rewrite (fire_event_unset _ _ _ ctx kwargs') by done.
      rewrite decide_False; [done |].
      intros (Hh & He & Ht). by destruct Hsome as [? | [? | ?]].
    + intros e Hres. by apply fire_event_unresolved.
  - apply fire_event_unbound.
Qed.

(** ** Temporary listeners that return *)

Lemma run_task_returning_listener_general t key id st :
  (∀ a k, handler_body id a k = Returned tt) →
  registrations key (UserFn id)
    (temporary_listeners
       (General.run_task has_name handler_body predicate_body t st).1)
  = registrations key (UserFn id) (temporary_listeners st).
Proof.
  intros Hbody.
  destruct (run_task_state t st) as (t' & _ & [-> | ->]); [| done].
  by apply run_task_returning_listener.
Qed.

Lemma run_tasks_returning_listener_general ts key id st :
  (∀ a k, handler_body id a k = Returned tt) →
  registrations key (UserFn id)
    (temporary_listeners
       (General.run_tasks has_name handler_body predicate_body ts st).1)
  = registrations key (UserFn id) (temporary_listeners st).
Proof.
  intros Hbody. revert st. induction ts as [| t ts IH]; intros st; [done |].
  simpl.
  pose proof (run_task_returning_listener_general t key id st Hbody) as Ht.
  destruct (General.run_task has_name handler_body predicate_body t st)
    as [st1 r].
  specialize (IH st1).
  destruct (General.run_tasks has_name handler_body predicate_body ts st1)
    as [st2 rs].
  simpl in *. by rewrite IH.
Qed.

(** The calls of a firing and of the run of the pending tasks: those of
    the pending tasks and of the spawned tasks whose call binds. *)
Lemma dispatch_calls_general name args kwargs st :
  let st' := General.dispatch task_manager_set has_name
               handler_body predicate_body name args kwargs st in
  ∃ ts, task_manager
          (General.fire_event task_manager_set has_name name args kwargs st).1
        = task_manager st ++ ts
        ∧ calls_since st st'
          = map task_invocation
              (List.filter General.task_binds (task_manager st ++ ts)).
Proof.
  intros st'. subst st'. unfold General.dispatch, General.run_pending.
  destruct (fire_event_frame name args kwargs st)
    as (_ & _ & Hc & _ & ts & Htm & _).
  exists ts. split; [done |].
  match goal with
  | |- context [General.run_tasks _ _ _ ?ts0 ?s] =>
      pose proof (run_tasks_calls_general ts0 s) as (Hcalls & _)
  end.
  unfold calls_since. rewrite Hcalls. simpl. rewrite Hc, Htm.
  by rewrite drop_app_length.
Qed.

(** X7. A temporary listener is not single-use by itself.  A user listener
    whose invocations always return normally keeps all its registrations
    through any firing, of any event, and the run of the tasks.  At a
    firing of its key whose call binds and whose context resolves: when
    the keyword arguments left for the handlers clash with no parameter of
    the wrapper, the task manager is set and the handlers under the key
    carry a [__name__], the listener is called with the arguments of the
    firing; when a keyword argument is named like a parameter of the
    wrapper, the wrapper raises [TypeError] and does not call the
    listener, so that a listener that is neither pending, nor a hook, nor
    a handler under the key, is not called at all. *)
Theorem returning_listener_survives key id name args kwargs st :
  (∀ a k, handler_body id a k = Returned tt) →
  let st' := General.dispatch task_manager_set has_name
               handler_body predicate_body name args kwargs st in
  registrations key (UserFn id) (temporary_listeners st')
  = registrations key (UserFn id) (temporary_listeners st)
  ∧ ∀ ctx kwargs',
      name = key →
      General.binds ["self"; "event_name"] kwargs = true →
      resolve_context name kwargs = Returned (ctx, kwargs') →
      UserFn id ∈ getall key (temporary_listeners st) →
      if General.binds ["self"; "key"; "func"] kwargs'
      then task_manager_set = true →
           Forall (fun h => General.named has_name h = true)
             (getall name (event_listeners st)) →
           (UserFn id, args, kwargs') ∈ calls_since st st'
      else (∀ s, General._listener_wrapper has_name handler_body predicate_body
                   key (UserFn id) args kwargs' s
                 = (s, Raised TypeError))
           ∧ (UserFn id ∉ event_hooks st →
              UserFn id ∉ getall name (event_listeners st) →
              Forall (fun t => task_callable t ≠ UserFn id) (task_manager st) →
              ∀ a k, (UserFn id, a, k) ∉ calls_since st st').
Proof.
  intros Hbody st'. subst st'. split.
  - unfold General.dispatch, General.run_pending.
    rewrite run_tasks_returning_listener_general by done. simpl.
    destruct (fire_event_frame name args kwargs st) as (Hr & _).
    by injection Hr as _ _ ->.
  - intros ctx kwargs' -> Hb Hres Hin.
    destruct (dispatch_calls_general key args kwargs st) as (ts & Htm & ->).
    destruct (General.binds ["self"; "key"; "func"] kwargs') eqn:Hb'.
    + intros Hset Hall.
      rewrite fire_event_general in Htm by done.
      rewrite (fire_event_resolved _ _ _ _ _ _ Hres) in Htm. simpl in Htm.
      apply app_inv_head in Htm. subst ts.
      apply list_elem_of_fmap.
      exists (ListenerTask key (UserFn id) args kwargs'). split; [done |].
      apply list_elem_of_In, filter_In. split; [| done].
      apply list_elem_of_In. rewrite !elem_of_app. right. right. right.
      unfold listener_tasks. apply list_elem_of_fmap. by exists (UserFn id).
    + split; [intros s; by apply _listener_wrapper_unbound |].
      intros Hhook Hhandler Hpending a k Hcall.
      apply list_elem_of_fmap in Hcall as (t & Ht & Hint).
      apply list_elem_of_In, filter_In in Hint as [Hint Hbinds].
      apply list_elem_of_In, elem_of_app in Hint as [Hint | Hint].
      * rewrite Forall_forall in Hpending. apply (Hpending t Hint).
        by destruct t; injection Ht as <- _ _.
      * destruct (fire_event_some key args kwargs ctx kwargs' st Hb Hres)
          as (ts' & Hsub & Heq).
        rewrite Heq in Htm. simpl in Htm. apply app_inv_head in Htm.
        subst ts'. apply Hsub in Hint. rewrite !elem_of_app in Hint.
        unfold hook_tasks, handler_tasks, listener_tasks in Hint.
        rewrite !list_elem_of_fmap in Hint.
        destruct Hint as [(h & -> & Hh) | [(h & -> & Hh) | (h & -> & Hh)]];
          cbn [task_invocation General.task_binds] in Ht, Hbinds;
          injection Ht as <- _ _.
        -- by apply Hhook, elem_of_elements.
        -- done.
        -- congruence.
Qed.

(** ** The log of a run *)

Lemma invoke_log func args kwargs st :
  ∃ extra,
    log (invoke handler_body predicate_body func args kwargs st).1
    = log st ++ extra
    ∧ ∀ entry, entry ∈ extra → ∃ e, entry = LogPredicate e.
Proof.
  assert (∀ cell o s, log (promise_set cell o s) = log s) as Hps.
  { intros cell o s. by destruct (promise_set_frame cell o s) as (_ & _ & _ & -> & _). }
  assert (∀ s : state,
            log s = log st →
            ∃ extra, log s = log st ++ extra
                     ∧ ∀ entry, entry ∈ extra → ∃ e, entry = LogPredicate e)
    as Hsame.
  { intros s ->. exists []. split; [by rewrite app_nil_r |].
    by intros ? ?%elem_of_nil. }
  unfold invoke. destruct func as [id | cell predicate]; [by apply Hsame |].
  destruct (decide (kwargs = ∅)) as [Hk | Hk]; [| by apply Hsame].
  set (s := record_call (WaitListener cell predicate, args, kwargs) st).
  unfold listener. destruct predicate as [p |].
  - destruct (predicate_body p args) as [res | e].
    + destruct (is_True res); apply Hsame; simpl; by rewrite ?Hps.
    + destruct (decide (e = ListenerExit)) as [-> | He].
      * apply Hsame. simpl. by rewrite Hps.
      * exists [LogPredicate e]. split.
        -- destruct e; try done; simpl; by rewrite Hps.
        -- intros entry ->%list_elem_of_singleton. by exists e.
  - apply Hsame. simpl. by rewrite Hps.
Qed.

(** Only the wrapper of a listener, called with keyword arguments that
    bind, logs a fault of that listener. *)
Lemma run_task_log_general t st :
  ∃ extra,
    log (General.run_task has_name handler_body predicate_body t st).1
    = log st ++ extra
    ∧ ∀ l e, LogUnhandledListener l e ∈ extra →
             ∃ key a k, t = ListenerTask key l a k
                        ∧ General.binds ["self"; "key"; "func"] k = true.
Proof.
  destruct t as [h args kwargs | h args kwargs | key h args kwargs];
    cbn [General.run_task];
    destruct (invoke_log h args kwargs st) as (extra & Hlog & Hextra).
  - exists extra. split; [done |]. intros l e Hin.
    by destruct (Hextra _ Hin) as (e' & ?).
  - rewrite _safety_wrapper_spec. simpl.
    destruct (invoke handler_body predicate_body h args kwargs st)
      as [st1 [[] | e']]; simpl in *.
    + exists extra. split; [done |]. intros l e Hin.
      by destruct (Hextra _ Hin) as (e' & ?).
    + exists (extra ++ [LogUnhandled h e']). split.
      * rewrite Hlog. by rewrite <- app_assoc.
      * intros l e [Hin | Hin%list_elem_of_singleton]%elem_of_app; [| done].
        by destruct (Hextra _ Hin) as (e'' & ?).
  - unfold General._listener_wrapper.
    destruct (General.binds ["self"; "key"; "func"] kwargs) eqn:Hb; simpl.
    2: { exists []. split; [by rewrite app_nil_r | by intros ? ? ?%elem_of_nil]. }
    destruct (invoke handler_body predicate_body h args kwargs st)
      as [st1 [[] | e']]; simpl in *.
    + exists extra. split; [done |]. intros l e Hin.
      by destruct (Hextra _ Hin) as (e' & ?).
    + assert (∀ l e, LogUnhandledListener l e ∈ extra → False) as Hno.
      { intros l e Hin. by destruct (Hextra _ Hin) as (e'' & ?). }
      assert (∀ l e, LogUnhandledListener l e ∈ extra ++ [LogUnhandledListener h e'] →
                     ∃ key0 a k, ListenerTask key h args kwargs
                                 = ListenerTask key0 l a k
                                 ∧ General.binds ["self"; "key"; "func"] k = true)
        as Hlast.
      { intros l e [Hin | Hin%list_elem_of_singleton]%elem_of_app.
        - by destruct (Hno _ _ Hin).
        - injection Hin as -> _. by exists key, args, kwargs. }
      destruct e'; simpl;
        first [ exists extra; split; [done |]; intros l e Hin;
                by destruct (Hno _ _ Hin)
              | destruct (General.named has_name h); simpl;
                [ eexists; split; [rewrite Hlog; by rewrite <- app_assoc |];
                  exact Hlast
                | exists extra; split; [done |]; intros l e Hin;
                  by destruct (Hno _ _ Hin) ] ].
Qed.

Lemma run_tasks_log_general ts st :
  ∃ extra,
    log (General.run_tasks has_name handler_body predicate_body ts st).1
    = log st ++ extra
    ∧ ∀ l e, LogUnhandledListener l e ∈ extra →
             ∃ key a k, ListenerTask key l a k ∈ ts
                        ∧ General.binds ["self"; "key"; "func"] k = true.
Proof.
  revert st. induction ts as [| t ts IH]; intros st.
  - exists []. simpl. split; [by rewrite app_nil_r | by intros ? ? ?%elem_of_nil].
  - simpl.
    destruct (run_task_log_general t st) as (extra1 & Hlog1 & Hextra1).
    destruct (General.run_task has_name handler_body predicate_body t st)
      as [st1 r].
    destruct (IH st1) as (extra2 & Hlog2 & Hextra2).
    destruct (General.run_tasks has_name handler_body predicate_body ts st1)
      as [st2 rs].
    simpl in *. exists (extra1 ++ extra2). split.
    + rewrite Hlog2, Hlog1. by rewrite <- app_assoc.
    + intros l e [Hin | Hin]%elem_of_app.
      * destruct (Hextra1 _ _ Hin) as (key & a & k & -> & Hb).
        exists key, a, k. split; [by left | done].
      * destruct (Hextra2 _ _ Hin) as (key & a & k & Hint & Hb).
        exists key, a, k. split; [by right | done].
Qed.

(** ** wait_for and the keyword arguments of a firing *)

(** The wrapper of a [wait_for] listener, called with keyword arguments:
    whether or not its call binds, the promise of the listener stays as it
    is. *)
Lemma _listener_wrapper_keyword key cell predicate args kwargs st :
  kwargs ≠ ∅ →
  promises (General._listener_wrapper has_name handler_body predicate_body
              key (WaitListener cell predicate) args kwargs st).1
  = promises st.
Proof.
  intros Hk.
  destruct (General.binds ["self"; "key"; "func"] kwargs) eqn:Hb;
    [| by rewrite _listener_wrapper_unbound].
  rewrite _listener_wrapper_named by done.
  assert (invoke handler_body predicate_body (WaitListener cell predicate)
            args kwargs st
          = (record_call (WaitListener cell predicate, args, kwargs) st,
             Raised TypeError)) as Hinv.
  { unfold invoke. by rewrite decide_False. }
  by rewrite (_listener_wrapper_raised _ _ _ _ _ _ _ _ _ Hinv).
Qed.

(** Tasks that do not hold the listener of cell [c], or call it with
    keyword arguments, leave the cell as it is. *)
Lemma run_tasks_cell_general ts c st :
  Forall (fun t => (∀ pr, task_callable t ≠ WaitListener c pr)
                   ∨ ∃ key l a k, t = ListenerTask key l a k ∧ k ≠ ∅) ts →
  promises (General.run_tasks has_name handler_body predicate_body ts st).1 !! c
  = promises st !! c.
Proof.
  intros Hall. revert st. induction Hall as [| t ts Ht Hts IH]; intros st.
  - done.
  - simpl.
    assert (promises (General.run_task has_name handler_body predicate_body t st).1
              !! c = promises st !! c) as Hcell.
    { destruct Ht as [Ht | (key & l & a & k & -> & Hk)].
      - destruct (run_task_state t st) as (t' & Hc & [-> | ->]); [| done].
        apply run_task_other_cell. by rewrite Hc.
      - destruct l as [id | cell pr].
        + destruct (run_task_state (ListenerTask key (UserFn id) a k) st)
            as (t' & Hc & [-> | ->]); [| done].
          apply run_task_other_cell. by rewrite Hc.
        + cbn [General.run_task]. by rewrite _listener_wrapper_keyword. }
    destruct (General.run_task has_name handler_body predicate_body t st)
      as [st1 r].
    specialize (IH st1).
    destruct (General.run_tasks has_name handler_body predicate_body ts st1)
      as [st2 rs].
    simpl in *. by rewrite IH.
Qed.

(** Tasks that do not hold the listener of cell [c], or whose call does
    not bind, leave the registrations of that listener as they are. *)
Lemma run_tasks_unbound_general ts c st :
  Forall (fun t => (∀ pr, task_callable t ≠ WaitListener c pr)
                   ∨ General.task_binds t = false) ts →
  ∀ key pr,
    registrations key (WaitListener c pr)
      (temporary_listeners
         (General.run_tasks has_name handler_body predicate_body ts st).1)
    = registrations key (WaitListener c pr) (temporary_listeners st).
Proof.
  intros Hall. revert st. induction Hall as [| t ts Ht Hts IH]; intros st.
  - done.
  - intros key pr. simpl.
    assert (registrations key (WaitListener c pr)
              (temporary_listeners
                 (General.run_task has_name handler_body predicate_body t st).1)
            = registrations key (WaitListener c pr) (temporary_listeners st))
      as Hreg.
    { destruct Ht as [Ht | Ht].
      - destruct (run_task_state t st) as (t' & Hc & [-> | ->]); [| done].
        apply run_task_other_registrations. rewrite Hc. apply Ht.
      - destruct t as [h a k | h a k | key' h a k]; try done.
        cbn [General.run_task]. simpl in Ht.
        by rewrite _listener_wrapper_unbound. }
    destruct (General.run_task has_name handler_body predicate_body t st)
      as [st1 r].
    specialize (IH st1 key pr).
    destruct (General.run_tasks has_name handler_body predicate_body ts st1)
      as [st2 rs].
    simpl in *. by rewrite IH.
Qed.

(** The tasks run by a firing made after [wait_for] has registered its
    listener: besides tasks that do not hold the listener, at most the
    wrapper of the listener, with the keyword arguments left for the
    handlers. *)
Lemma tasks_after_register name predicate args kwargs ctx kwargs1 st :
  closures_allocated st = true →
  resolve_context name kwargs = Returned (ctx, kwargs1) →
  let c := length (promises st) in
  let l := WaitListener c predicate in
  let st1 := (wait_for_register name predicate st).2 in
  Forall (fun t => (∀ pr, task_callable t ≠ WaitListener c pr)
                   ∨ t = ListenerTask name l args kwargs1)
    (task_manager
       (General.fire_event task_manager_set has_name name args kwargs st1).1).
Proof.
  intros Hwf Hres c l st1.
  pose proof (pending_tasks_hold_no_new_listener name args kwargs1 st Hwf)
    as Hothers.
  rewrite Forall_forall in Hothers. apply Forall_forall. intros t Hin.
  destruct (General.binds ["self"; "event_name"] kwargs) eqn:Hb.
  2: { rewrite fire_event_unbound in Hin by done. left.
       apply Hothers. apply elem_of_app. by left. }
  destruct (fire_event_some name args kwargs ctx kwargs1 st1 Hb Hres)
    as (ts & Hsub & Heq).
  rewrite Heq in Hin. simpl in Hin.
  apply elem_of_app in Hin as [Hin | Hin].
  { left. apply Hothers. apply elem_of_app. by left. }
  apply Hsub in Hin. rewrite !elem_of_app in Hin.
  destruct Hin as [Hin | [Hin | Hin]].
  - left. apply Hothers. rewrite !elem_of_app. right. by left.
  - left. apply Hothers. rewrite !elem_of_app. right. right. by left.
  - unfold listener_tasks in Hin. simpl in Hin.
    rewrite getall_md_add, decide_True in Hin by done.
    rewrite map_app in Hin. apply elem_of_app in Hin as [Hin | Hin].
    + left. apply Hothers. rewrite !elem_of_app. right. right. by right.
    + right. simpl in Hin. by apply list_elem_of_singleton in Hin.
Qed.

(** In a manager in use, the firing ends with the wrapper of the new
    listener, run on a state where its promise is unset and the listener
    registered once. *)
Lemma dispatch_after_register_general name predicate args kwargs ctx kwargs1 st :
  closures_allocated st = true →
  task_manager_set = true →
  General.binds ["self"; "event_name"] kwargs = true →
  Forall (fun h => General.named has_name h = true)
    (getall name (event_listeners st)) →
  resolve_context name kwargs = Returned (ctx, kwargs1) →
  ∃ s, promises s !! length (promises st) = Some None
       ∧ registrations name (WaitListener (length (promises st)) predicate)
           (temporary_listeners s) = 1
       ∧ General.dispatch task_manager_set has_name handler_body predicate_body
           name args kwargs (wait_for_register name predicate st).2
         = (General._listener_wrapper has_name handler_body predicate_body name
              (WaitListener (length (promises st)) predicate) args kwargs1 s).1.
Proof.
  intros Hwf Hset Hb Hall Hres.
  set (c := length (promises st)). set (l := WaitListener c predicate).
  set (st1 := (wait_for_register name predicate st).2).
  set (others := task_manager st ++ hook_tasks args kwargs1 st
                   ++ handler_tasks name args kwargs1 st
                   ++ map (fun l' => ListenerTask name l' args kwargs1)
                        (getall name (temporary_listeners st))).
  assert (General.fire_event task_manager_set has_name name args kwargs st1
          = (mkState (others ++ [ListenerTask name l args kwargs1])
               (event_hooks st) (event_listeners st)
               (md_add name l (temporary_listeners st))
               (promises st ++ [None]) (Some ctx) (calls st) (log st),
             Returned tt)) as Hfire.
  { rewrite fire_event_general by done.
    rewrite (fire_event_resolved _ _ _ _ _ _ Hres). simpl. f_equal. f_equal.
    unfold others, listener_tasks. simpl.
    rewrite getall_md_add, decide_True by done.
    rewrite map_app. simpl. by rewrite <- !app_assoc. }
  pose proof (pending_tasks_hold_no_new_listener name args kwargs1 st Hwf)
    as Hothers.
  fold others in Hothers. fold c in Hothers.
  set (s0 := mkState [] (event_hooks st) (event_listeners st)
               (md_add name l (temporary_listeners st))
               (promises st ++ [None]) (Some ctx) (calls st) (log st)).
  exists (General.run_tasks has_name handler_body predicate_body others s0).1.
  destruct (run_tasks_other_general others c s0 Hothers) as [Hcell Hreg].
  split_and!.
  - rewrite Hcell. simpl. by apply list_lookup_middle.
  - unfold l. rewrite Hreg. simpl.
    rewrite registrations_md_add, decide_True by done.
    pose proof (closures_allocated_new_listener st name predicate Hwf) as Hnew.
    apply (proj2 (registrations_zero _ _ _)) in Hnew. fold c in Hnew. lia.
  - unfold General.dispatch. rewrite Hfire. unfold General.run_pending.
    cbn [task_manager fst].
    rewrite run_tasks_app_general. unfold set_task_manager. simpl. fold s0.
    by destruct (General._listener_wrapper has_name handler_body predicate_body
                   name l args kwargs1
                   (General.run_tasks has_name handler_body predicate_body
                      others s0).1).
Qed.

(** X8. A firing that passes a keyword argument besides the context source
    does not resolve a pending [wait_for] on the event: the promise stays
    unset and the caller stays suspended.  When a keyword argument is
    named like a parameter of the listener wrapper, the call of the wrapper
    raises [TypeError]: the listener is not called, nothing is logged for
    it, and it stays registered.  When none is, in a manager whose task
    manager is set and whose handlers under the event carry a [__name__],
    the firing puts an end to the wait: the listener takes positional
    arguments only, so its call raises [TypeError], which the wrapper logs
    before it removes the listener. *)
Theorem wait_for_firing_with_keyword name predicate args kwargs ctx kwargs1 st :
  closures_allocated st = true →
  resolve_context name kwargs = Returned (ctx, kwargs1) →
  kwargs1 ≠ ∅ →
  let l := WaitListener (length (promises st)) predicate in
  let st1 := (wait_for_register name predicate st).2 in
  let st2 := General.dispatch task_manager_set has_name
               handler_body predicate_body name args kwargs st1 in
  wait_for name predicate
    (fun _ _ s =>
       (General.dispatch task_manager_set has_name
          handler_body predicate_body name args kwargs s, None)) st
  = None
  ∧ promise_wait (length (promises st)) st2 = None
  ∧ (if General.binds ["self"; "key"; "func"] kwargs1
     then task_manager_set = true →
          General.binds ["self"; "event_name"] kwargs = true →
          Forall (fun h => General.named has_name h = true)
            (getall name (event_listeners st)) →
          (l ∉ getall name (temporary_listeners st2))
          ∧ LogUnhandledListener l TypeError ∈ log st2
     else registrations name l (temporary_listeners st2) = 1
          ∧ (∀ a k, (l, a, k) ∉ calls_since st1 st2)
          ∧ (∀ e, LogUnhandledListener l e
                    ∉ drop (length (log st1)) (log st2))).
Proof.
  intros Hwf Hres Hkw l st1 st2.
  set (c := length (promises st)) in *.
  pose proof (tasks_after_register name predicate args kwargs ctx kwargs1 st
                Hwf Hres) as Htasks.
  cbv zeta in Htasks. fold c l st1 in Htasks.
  destruct (fire_event_frame name args kwargs st1)
    as (Hr & Hp & Hc & Hl & _).
  set (fired := (General.fire_event task_manager_set has_name
                   name args kwargs st1).1) in *.
  assert (st2 = (General.run_tasks has_name handler_body predicate_body
                   (task_manager fired) (set_task_manager [] fired)).1)
    as Hst2 by done.
  assert (promise_wait c st2 = None) as Hwait.
  { unfold promise_wait. rewrite Hst2, run_tasks_cell_general.
    - simpl. rewrite Hp. unfold st1, c. simpl.
      by rewrite list_lookup_middle.
    - eapply Forall_impl; [exact Htasks |]. intros t [Ht | ->]; [by left |].
      right. by exists name, l, args, kwargs1. }
  split_and!.
  - unfold wait_for. rewrite wait_for_register_spec. cbv beta iota zeta.
    unfold st2, st1, c in Hwait. rewrite wait_for_register_spec in Hwait.
    cbn [snd] in Hwait. by rewrite Hwait.
  - done.
  - destruct (General.binds ["self"; "key"; "func"] kwargs1) eqn:Hb1.
    + intros Hset Hb Hall.
      destruct (dispatch_after_register_general name predicate args kwargs ctx
                  kwargs1 st Hwf Hset Hb Hall Hres) as (s & Hcell & Hreg & Hdisp).
      fold c l st1 in Hreg, Hdisp. fold st2 in Hdisp.
      rewrite _listener_wrapper_named in Hdisp by done.
      assert (invoke handler_body predicate_body l args kwargs1 s
              = (record_call (l, args, kwargs1) s, Raised TypeError)) as Hinv.
      { unfold invoke, l. by rewrite decide_False. }
      rewrite (_listener_wrapper_raised _ _ _ _ _ _ _ _ _ Hinv) in Hdisp.
      simpl in Hdisp. split.
      * apply registrations_zero. rewrite Hdisp. simpl.
        rewrite registrations_remove. by rewrite Hreg.
      * rewrite Hdisp. simpl. apply elem_of_app. right. by left.
    + assert (Forall (fun t => (∀ pr, task_callable t ≠ WaitListener c pr)
                               ∨ General.task_binds t = false)
                (task_manager fired)) as Hunbound.
      { eapply Forall_impl; [exact Htasks |]. intros t [Ht | ->]; [by left |].
        by right. }
      split_and!.
      * rewrite Hst2. unfold l.
        rewrite (run_tasks_unbound_general _ c _ Hunbound). simpl.
        injection Hr as _ _ ->. unfold st1. simpl.
        rewrite registrations_md_add, decide_True by done.
        pose proof (closures_allocated_new_listener st name predicate Hwf)
          as Hnew.
        apply (proj2 (registrations_zero _ _ _)) in Hnew. fold c in Hnew. lia.
      * intros a k Hcall. unfold calls_since in Hcall.
        destruct (run_tasks_calls_general (task_manager fired)
                    (set_task_manager [] fired)) as (Hcalls & _).
        rewrite <- Hst2 in Hcalls. simpl in Hcalls.
        rewrite Hcalls, Hc, drop_app_length in Hcall.
        apply list_elem_of_fmap in Hcall as (t & Ht & Hint).
        apply list_elem_of_In, filter_In in Hint as [Hint Hbinds].
        apply list_elem_of_In in Hint.
        rewrite Forall_forall in Hunbound.
        destruct (Hunbound t Hint) as [Hother | Hnb]; [| congruence].
        apply (Hother predicate). by destruct t; injection Ht as <- _ _.
      * intros e Hlog.
        destruct (run_tasks_log_general (task_manager fired)
                    (set_task_manager [] fired)) as (extra & Hextra & Hwho).
        rewrite <- Hst2 in Hextra. simpl in Hextra.
        rewrite Hextra, Hl, drop_app_length in Hlog.
        destruct (Hwho _ _ Hlog) as (key & a & k & Hint & Hbk).
        rewrite Forall_forall in Hunbound.
        destruct (Hunbound _ Hint) as [Hother | Hnb].
        -- by apply (Hother predicate).
        -- cbn [General.task_binds] in Hnb. congruence.
Qed.

(** ** wait_for in a manager in use *)

(** What the sections above show of [wait_for] and one firing holds for
    the firing of this section, in a manager whose task manager is set and
    whose handlers under the event carry a [__name__]: the listener of
    [wait_for] is a function, and with no keyword argument left its wrapper
    is called as there, whatever the other tasks are. *)
Lemma wait_for_one_firing_general name predicate args kwargs ctx st :
  closures_allocated st = true →
  task_manager_set = true →
  General.binds ["self"; "event_name"] kwargs = true →
  Forall (fun h => General.named has_name h = true)
    (getall name (event_listeners st)) →
  resolve_context name kwargs = Returned (ctx, ∅) →
  let c := length (promises st) in
  let l := WaitListener c predicate in
  let st2 := General.dispatch task_manager_set has_name
               handler_body predicate_body name args kwargs
               (wait_for_register name predicate st).2 in
  promise_wait c st2 = listener_verdict predicate_body predicate args
  ∧ registrations name l (temporary_listeners st2)
    = match listener_verdict predicate_body predicate args with
      | Some _ => 0
      | None => 1
      end
  ∧ wait_for name predicate
      (fun _ _ s =>
         (General.dispatch task_manager_set has_name
            handler_body predicate_body name args kwargs s, None)) st
    = match listener_verdict predicate_body predicate args with
      | Some o => Some (wait_for_resume name l (Returned o) st2)
      | None => None
      end.
Proof.
  intros Hwf Hset Hb Hall Hres c l st2.
  destruct (dispatch_after_register_general name predicate args kwargs ctx ∅
              st Hwf Hset Hb Hall Hres) as (s & Hcell & Hreg & Hdisp).
  rewrite _listener_wrapper_named in Hdisp by done.
  pose proof (listener_task_outcome handler_body predicate_body
                name (length (promises st)) predicate args s Hcell) as Ho.
  cbv zeta in Ho. destruct Ho as [Hw Ht]. rewrite <- Hdisp in Hw, Ht.
  subst c l st2. split_and!; [done | |].
  - rewrite Ht. destruct (listener_verdict predicate_body predicate args).
    + rewrite registrations_remove. by rewrite Hreg.
    + done.
  - unfold wait_for. rewrite wait_for_register_spec. cbv beta iota zeta.
    rewrite wait_for_register_spec in Hw. simpl in Hw. rewrite Hw.
    by destruct (listener_verdict predicate_body predicate args).
Qed.

End GeneralFacts.

(** * Runs of the manager, whatever its callables *)

Section GeneralRuns.





Lemma add_event_named_witness :
  add_event sample_async sample_events (UserFn 9) (Some "E") sample_manager
  = (sample_manager, Raised TypeError)
  ∧ (let st' := (add_event sample_async sample_events (UserFn 3) (Some "E")
                   sample_manager).1 in
     getall "E" (event_listeners st') = [UserFn 0; UserFn 1; UserFn 3]
     ∧ spawned_by st'
         (General.fire_event true all_named "E" [VInt 42] gateway_kwargs st').1
       = [HookTask (UserFn 5) [VInt 42] ∅; SafetyTask (UserFn 0) [VInt 42] ∅;
          SafetyTask (UserFn 1) [VInt 42] ∅; SafetyTask (UserFn 3) [VInt 42] ∅;
          ListenerTask "E" (UserFn 2) [VInt 42] ∅])
  ∧ (let st' := (add_event sample_async sample_events (UserFn 4) (Some "E")
                   new_manager).1 in
     (General.fire_event true sample_names "E" [VInt 42] gateway_kwargs st').2
     = Raised AttributeError
     ∧ spawned_by st'
         (General.fire_event true sample_names "E" [VInt 42] gateway_kwargs
            st').1 = []).
Proof.
  destruct (add_event_named sample_async sample_events true all_named
              (UserFn 9) "E" sample_manager) as [Hrefused _].
  destruct (add_event_named sample_async sample_events true all_named
              (UserFn 3) "E" sample_manager) as [_ Hadded].
  destruct (Hadded eq_refl) as (_ & Hget & _ & _ & _ & Hfire).
  destruct (add_event_named sample_async sample_events true sample_names
              (UserFn 4) "E" new_manager) as [_ Hpartial].
  destruct (Hpartial eq_refl) as (_ & _ & _ & _ & _ & Hfire4).
  assert (General.binds ["self"; "event_name"] gateway_kwargs = true) as Hb
    by (vm_compute; reflexivity).
  cbv zeta. split_and!.
  - by apply Hrefused.
  - exact Hget.
  - assert (Forall (fun h => General.named all_named h = true)
              (getall "E" (event_listeners sample_manager))) as Hall.
    { apply Forall_forall. by intros [id | cell pr] _. }
    destruct (Hfire [VInt 42] gateway_kwargs (0%Z, "E") ∅
                eq_refl Hb eq_refl Hall) as [_ Hspawned].
    etransitivity; [exact Hspawned |]. vm_compute. reflexivity.
  - by destruct (Hfire4 [VInt 42] gateway_kwargs (0%Z, "E") ∅
                   eq_refl Hb eq_refl (Forall_nil_2 _)) as [Hraised _].
  - destruct (Hfire4 [VInt 42] gateway_kwargs (0%Z, "E") ∅
                eq_refl Hb eq_refl (Forall_nil_2 _)) as [_ Hspawned].
    etransitivity; [exact Hspawned |]. vm_compute. reflexivity.
Defined.

Lemma fire_event_context_witness :
  event_context
    (General.fire_event true all_named "E" []
       {[ "ctx" := VContext 3 "old"; "gateway" := VGateway 0 ]}
       sample_manager).1 = Some (3%Z, "E")
  ∧ event_context
      (General.fire_event true all_named "E" [] gateway_kwargs sample_manager).1
    = Some (0%Z, "E")
  ∧ General.fire_event false all_named "E" [] gateway_kwargs sample_manager
    = (set_event_context (Some (0%Z, "E")) sample_manager,
       Raised AttributeError)
  ∧ General.fire_event true all_named "E" [] ∅ sample_manager
    = (sample_manager, Raised (KeyError (KStr "gateway")))
  ∧ General.fire_event true all_named "E" []
      {[ "gateway" := VGateway 0; "event_name" := VStr "F" ]} sample_manager
    = (sample_manager, Raised TypeError).
Proof.
  split_and!.
  - destruct (fire_event_context true all_named "E" []
                {[ "ctx" := VContext 3 "old"; "gateway" := VGateway 0 ]}
                sample_manager) as (Hbound & _).
    destruct Hbound as (Hctx & _); [vm_compute; reflexivity |].
    by apply (Hctx 3%Z "old").
  - destruct (fire_event_context true all_named "E" [] gateway_kwargs
                sample_manager) as (Hbound & _).
    destruct Hbound as (_ & Hgw & _); [vm_compute; reflexivity |].
    by apply (Hgw 0%Z).
  - destruct (fire_event_context false all_named "E" [] gateway_kwargs
                sample_manager) as (Hbound & _).
    destruct Hbound as (_ & _ & Hunset & _); [vm_compute; reflexivity |].
    apply (Hunset (0%Z, "E") ∅); [reflexivity | reflexivity |].
    right. left. discriminate.
  - destruct (fire_event_context true all_named "E" [] ∅ sample_manager)
      as (Hbound & _).
    destruct Hbound as (_ & _ & _ & Hfail); [vm_compute; reflexivity |].
    by apply Hfail.
  - destruct (fire_event_context true all_named "E" []
                {[ "gateway" := VGateway 0; "event_name" := VStr "F" ]}
                sample_manager) as (_ & Hunbound & _).
    apply Hunbound. vm_compute. reflexivity.
Defined.

Lemma returning_listener_survives_witness :
  registrations "E" (UserFn 2)
    (temporary_listeners
       (General.dispatch true all_named returning_handler sample_predicate
          "E" [VInt 42] gateway_kwargs sample_manager)) = 1
  ∧ (UserFn 2, [VInt 42], ∅)
      ∈ calls_since sample_manager
          (General.dispatch true all_named returning_handler sample_predicate
             "E" [VInt 42] gateway_kwargs sample_manager)
  ∧ ∀ a k, (UserFn 2, a, k)
             ∉ calls_since sample_manager
                 (General.dispatch true all_named returning_handler
                    sample_predicate "E" [VInt 42] key_kwargs sample_manager).
Proof.
  destruct (returning_listener_survives true all_named
              returning_handler sample_predicate
              "E" 2 "E" [VInt 42] gateway_kwargs sample_manager
              (fun _ _ => eq_refl)) as [Hreg Hcall].
  destruct (returning_listener_survives true all_named
              returning_handler sample_predicate
              "E" 2 "E" [VInt 42] key_kwargs sample_manager
              (fun _ _ => eq_refl)) as [_ Hclash].
  split_and!.
  - rewrite Hreg. reflexivity.
  - assert (UserFn 2 ∈ getall "E" (temporary_listeners sample_manager)) as Hin
      by compute_done.
    assert (General.binds ["self"; "event_name"] gateway_kwargs = true) as Hb
      by (vm_compute; reflexivity).
    pose proof (Hcall (0%Z, "E") (delete "gateway" gateway_kwargs)
                  eq_refl Hb eq_refl Hin) as Hcalled.
    assert (General.binds ["self"; "key"; "func"]
              (delete "gateway" gateway_kwargs) = true) as Hb'
      by (vm_compute; reflexivity).
    rewrite Hb' in Hcalled. apply Hcalled; [reflexivity |].
    apply Forall_forall. by intros [id | cell pr] _.
  - assert (UserFn 2 ∈ getall "E" (temporary_listeners sample_manager)) as Hin
      by compute_done.
    assert (General.binds ["self"; "event_name"] key_kwargs = true) as Hb
      by (vm_compute; reflexivity).
    pose proof (Hclash (0%Z, "E") (delete "gateway" key_kwargs)
                  eq_refl Hb eq_refl Hin) as Hnot.
    assert (General.binds ["self"; "key"; "func"] (delete "gateway" key_kwargs)
            = false) as Hb' by (vm_compute; reflexivity).
    rewrite Hb' in Hnot. destruct Hnot as [_ Hnot].
    apply Hnot; [compute_done | compute_done | by apply Forall_nil_2].
Defined.

Lemma wait_for_firing_with_keyword_witness :
  wait_for "X" (Some 0)
    (fun _ _ s =>
       (General.dispatch true all_named sample_handler sample_predicate
          "X" [VInt 42] extra_kwargs s, None)) sample_manager
  = None
  ∧ (WaitListener 0 (Some 0)
       ∉ getall "X"
           (temporary_listeners
              (General.dispatch true all_named sample_handler sample_predicate
                 "X" [VInt 42] extra_kwargs
                 (wait_for_register "X" (Some 0) sample_manager).2)))
  ∧ registrations "X" (WaitListener 0 (Some 0))
      (temporary_listeners
         (General.dispatch true all_named sample_handler sample_predicate
            "X" [VInt 42] key_kwargs
            (wait_for_register "X" (Some 0) sample_manager).2)) = 1.
Proof.
  destruct (wait_for_firing_with_keyword true all_named
              sample_handler sample_predicate
              "X" (Some 0) [VInt 42] extra_kwargs (0%Z, "X")
              (delete "gateway" extra_kwargs) sample_manager)
    as (Hwait & _ & Hbound);
    [reflexivity | reflexivity | compute_done |].
  destruct (wait_for_firing_with_keyword true all_named
              sample_handler sample_predicate
              "X" (Some 0) [VInt 42] key_kwargs (0%Z, "X")
              (delete "gateway" key_kwargs) sample_manager)
    as (_ & _ & Hclash);
    [reflexivity | reflexivity | compute_done |].
  assert (General.binds ["self"; "key"; "func"] (delete "gateway" extra_kwargs)
          = true) as Hb1 by (vm_compute; reflexivity).
  assert (General.binds ["self"; "key"; "func"] (delete "gateway" key_kwargs)
          = false) as Hb2 by (vm_compute; reflexivity).
  rewrite Hb1 in Hbound. rewrite Hb2 in Hclash.
  split_and!.
  - exact Hwait.
  - apply Hbound; [reflexivity | vm_compute; reflexivity | by apply Forall_nil_2].
  - apply Hclash.
Defined.

End GeneralRuns.
